(** * ts-php-lib: the PHP timezone resolver [UFTimezone] and the PHP
    configuration reader [UFPhp], embedded as Rocq functions.

    Numbers are JavaScript numbers restricted to the integers plus [NaN]
    (every number [UFTimezone] handles is a clock reading, a count of
    milliseconds, seconds or minutes, or comes out of [parseInt]).
    [parseInt] rounds what it reads to the nearest double; sums and
    products are those of the integers, which is what doubles give up to
    2^53. Strings are sequences of ASCII characters. The logger and the
    console are taken to return normally. *)

From Stdlib Require Import ZArith String Ascii List Lia QArith.
From stdpp Require Import base option strings gmap.

Local Open Scope string_scope.
Local Open Scope Z_scope.
Local Set Warnings "-register-all,-clear-no-such-hyp".

(** ** JavaScript values used by both classes *)

Module Js.

(** A JavaScript number: an integer or [NaN]. *)
Inductive number : Type :=
| Num (z : Z)
| NaN.

Definition add (a b : number) : number :=
  match a, b with
  | Num x, Num y => Num (x + y)
  | _, _ => NaN
  end.

Definition sub (a b : number) : number :=
  match a, b with
  | Num x, Num y => Num (x - y)
  | _, _ => NaN
  end.

Definition mul (a b : number) : number :=
  match a, b with
  | Num x, Num y => Num (x * y)
  | _, _ => NaN
  end.

(** [a % b]: the remainder takes the sign of the dividend; [x % 0] is [NaN]. *)
Definition rem (a b : number) : number :=
  match a, b with
  | Num x, Num y => if y =? 0 then NaN else Num (Z.rem x y)
  | _, _ => NaN
  end.

(** [a < b]: every comparison with [NaN] is false. *)
Definition lt (a b : number) : bool :=
  match a, b with
  | Num x, Num y => x <? y
  | _, _ => false
  end.

(** [a > b]. *)
Definition gt (a b : number) : bool := lt b a.

(** ToBoolean on numbers: [0] and [NaN] are falsy. *)
Definition truthy (a : number) : bool :=
  match a with
  | Num x => negb (x =? 0)
  | NaN => false
  end.

(** [a || b] on numbers. *)
Definition or (a b : number) : number := if truthy a then a else b.

(** ToBoolean on strings: only the empty string is falsy. *)
Definition truthy_string (s : string) : bool :=
  match s with
  | EmptyString => false
  | String _ _ => true
  end.

(** [s.indexOf(sub)]: the first index at which [sub] occurs, or [-1]. *)
Fixpoint indexOf_from (i : Z) (s sub : string) : Z :=
  if String.prefix sub s then i
  else match s with
       | EmptyString => -1
       | String _ s' => indexOf_from (i + 1) s' sub
       end.

Definition indexOf (s sub : string) : Z := indexOf_from 0 s sub.

(** Decimal digits of a non-negative integer, most significant first. *)
Fixpoint digits_fuel (fuel : nat) (n : Z) (acc : string) : string :=
  match fuel with
  | O => acc
  | S fuel' =>
      let acc' := String (ascii_of_nat (48 + Z.to_nat (n mod 10))) acc in
      if n <? 10 then acc' else digits_fuel fuel' (n / 10) acc'
  end.

Definition digits (n : Z) : string :=
  digits_fuel (S (Z.to_nat (Z.log2 n))) n EmptyString.

(** Number::toString for the numbers of this model. *)
Definition toString (a : number) : string :=
  match a with
  | NaN => "NaN"
  | Num z => if z <? 0 then "-" +:+ digits (- z) else digits z
  end.

(** StrWhiteSpaceChar, within ASCII: tab, line feed, vertical tab, form
    feed, carriage return and space. *)
Definition isWhiteSpace (c : ascii) : bool :=
  let n := nat_of_ascii c in
  ((9 <=? n) && (n <=? 13))%nat || (n =? 32)%nat.

Fixpoint trimStart (s : string) : string :=
  match s with
  | String c s' => if isWhiteSpace c then trimStart s' else s
  | EmptyString => s
  end.

(** The value of [c] as a digit in radix 10 or 16. *)
Definition digitValue (radix : Z) (c : ascii) : option Z :=
  let n := Z.of_nat (nat_of_ascii c) in
  let v := if (48 <=? n) && (n <=? 57) then Some (n - 48)
           else if (97 <=? n) && (n <=? 122) then Some (n - 87)
           else if (65 <=? n) && (n <=? 90) then Some (n - 55)
           else None in
  match v with
  | Some d => if d <? radix then Some d else None
  | None => None
  end.

(** The longest prefix of digits, folded into its value; [None] when the
    prefix is empty. *)
Fixpoint parseDigits (radix : Z) (acc : option Z) (s : string) : option Z :=
  match s with
  | EmptyString => acc
  | String c s' =>
      match digitValue radix c with
      | Some d => parseDigits radix (Some (default 0 acc * radix + d)) s'
      | None => acc
      end
  end.

(** The double nearest to the integer [v], ties going to the even
    significand of 53 bits. (An integer of 2^1024 or more, for which a
    double is infinite, is beyond the numbers of this model.) *)
Definition round_double (v : Z) : Z :=
  let a := Z.abs v in
  let bits := Z.log2 a + 1 in
  if bits <=? 53 then v
  else
    let shift := bits - 53 in
    let q := Z.shiftr a shift in
    let r := a - Z.shiftl q shift in
    let half := 2 ^ (shift - 1) in
    let q' := if (half <? r) || ((r =? half) && Z.odd q) then q + 1 else q in
    Z.sgn v * Z.shiftl q' shift.

(** [parseInt(s)] without a radix argument: leading white space is
    skipped, a sign is read, a [0x] prefix selects radix 16, and the
    longest run of digits is the value, as a double; no digit gives
    [NaN]. *)
Definition parseInt (s : string) : number :=
  let s1 := trimStart s in
  let '(sign, s2) :=
    match s1 with
    | String "-" r => (-1, r)
    | String "+" r => (1, r)
    | _ => (1, s1)
    end in
  let '(radix, s3) :=
    match s2 with
    | String "0" (String "x" r) => (16, r)
    | String "0" (String "X" r) => (16, r)
    | _ => (10, s2)
    end in
  match parseDigits radix None s3 with
  | Some v => Num (round_double (sign * v))
  | None => NaN
  end.

End Js.

(** ** [UFTimezone]: offsets of PHP timezones, cached for one hour *)

Module UFTimezone.
Import Js.

(** Prefix for log entries. *)
Definition LOG_PREFIX : string := "TIMEZONE".

(** Cache life is 1 hour (in milliseconds). *)
Definition CACHE_LIFE : Z := 60 * 60 * 1000.

(** Offset with the time it was stored. *)
Record Offset : Type := mkOffset {
  offset : number;   (* offset to UTC *)
  time : Z           (* system time the value was stored *)
}.

(** The constructor of [Offset]. *)
Definition new_Offset : Offset := {| offset := Num 0; time := - CACHE_LIFE |}.

(** What awaiting [execFileAsync] gives: the promise resolves with the two
    output streams, or rejects (spawn error, non-zero exit code). *)
Inductive ExecOutcome : Type :=
| Resolved (stdout stderr : string)
| Rejected (error : string).

(** The calls the class makes on its collaborators, in the order made. *)
Inductive Event : Type :=
| ExecFile (file : string) (args : list string)
| LogError (prefix : string) (error : option string) (method : string)
    (details : list string)
| LogDebug (prefix method zone : string) (value : Offset).

(** The environment of one call: the system clock read by
    [UFSystem.time()], the child process behind [execFileAsync], and the
    server's timezone rule behind [Date.prototype.getTimezoneOffset]
    (minutes to add to local time to reach UTC, at a given time value). *)
Record Host : Type := mkHost {
  UFSystem_time : Z;
  execFileAsync : string -> list string -> ExecOutcome;
  getTimezoneOffset : Z -> Z
}.

(** An instance of the class; [trace] records the collaborator calls. *)
Record UFTimezone : Type := mkUFTimezone {
  m_cache : gmap string Offset;
  m_php : string;
  trace : list Event
}.

(** The constructor: the cache starts as [new Map()]. *)
Definition new_UFTimezone (aPhp : string) : UFTimezone :=
  {| m_cache := ∅; m_php := aPhp; trace := [] |}.

(** [new Map(entries)]: entries are set in order, a later one replaces an
    earlier one with the same key. *)
Definition new_Map (entries : list (string * Z)) : gmap string Z :=
  fold_left (fun m kv => <[kv.1 := kv.2]> m) entries ∅.

(** Maps a PHP timezone to its summer offset. *)
Definition s_summerTimezones_entries : list (string * Z) :=
  [ ("Africa/Abidjan", 0); ("Africa/Accra", 0); ("Africa/Addis_Ababa", 10800);
    ("Africa/Algiers", 3600); ("Africa/Asmara", 10800); ("Africa/Bamako", 0);
    ("Africa/Bangui", 3600); ("Africa/Banjul", 0); ("Africa/Bissau", 0);
    ("Africa/Blantyre", 7200); ("Africa/Brazzaville", 3600); ("Africa/Bujumbura", 7200);
    ("Africa/Cairo", 7200); ("Africa/Casablanca", 3600); ("Africa/Ceuta", 7200);
    ("Africa/Conakry", 0); ("Africa/Dakar", 0); ("Africa/Dar_es_Salaam", 10800);
    ("Africa/Djibouti", 10800); ("Africa/Douala", 3600); ("Africa/El_Aaiun", 3600);
    ("Africa/Freetown", 0); ("Africa/Gaborone", 7200); ("Africa/Harare", 7200);
    ("Africa/Johannesburg", 7200); ("Africa/Juba", 10800); ("Africa/Kampala", 10800);
    ("Africa/Khartoum", 7200); ("Africa/Kigali", 7200); ("Africa/Kinshasa", 3600);
    ("Africa/Lagos", 3600); ("Africa/Libreville", 3600); ("Africa/Lome", 0);
    ("Africa/Luanda", 3600); ("Africa/Lubumbashi", 7200); ("Africa/Lusaka", 7200);
    ("Africa/Malabo", 3600); ("Africa/Maputo", 7200); ("Africa/Maseru", 7200);
    ("Africa/Mbabane", 7200); ("Africa/Mogadishu", 10800); ("Africa/Monrovia", 0);
    ("Africa/Nairobi", 10800); ("Africa/Ndjamena", 3600); ("Africa/Niamey", 3600);
    ("Africa/Nouakchott", 0); ("Africa/Ouagadougou", 0); ("Africa/Porto-Novo", 3600);
    ("Africa/Sao_Tome", 0); ("Africa/Tripoli", 7200); ("Africa/Tunis", 3600);
    ("Africa/Windhoek", 7200); ("America/Adak", (-32400));
    ("America/Anchorage", (-28800)); ("America/Anguilla", (-14400));
    ("America/Antigua", (-14400)); ("America/Araguaina", (-10800));
    ("America/Argentina/Buenos_Aires", (-10800));
    ("America/Argentina/Catamarca", (-10800)); ("America/Argentina/Cordoba", (-10800));
    ("America/Argentina/Jujuy", (-10800)); ("America/Argentina/La_Rioja", (-10800));
    ("America/Argentina/Mendoza", (-10800));
    ("America/Argentina/Rio_Gallegos", (-10800)); ("America/Argentina/Salta", (-10800));
    ("America/Argentina/San_Juan", (-10800)); ("America/Argentina/San_Luis", (-10800));
    ("America/Argentina/Tucuman", (-10800)); ("America/Argentina/Ushuaia", (-10800));
    ("America/Aruba", (-14400)); ("America/Asuncion", (-14400));
    ("America/Atikokan", (-18000)); ("America/Bahia", (-10800));
    ("America/Bahia_Banderas", (-21600)); ("America/Barbados", (-14400));
    ("America/Belem", (-10800)); ("America/Belize", (-21600));
    ("America/Blanc-Sablon", (-14400)); ("America/Boa_Vista", (-14400));
    ("America/Bogota", (-18000)); ("America/Boise", (-21600));
    ("America/Cambridge_Bay", (-21600)); ("America/Campo_Grande", (-14400));
    ("America/Cancun", (-18000)); ("America/Caracas", (-14400));
    ("America/Cayenne", (-10800)); ("America/Cayman", (-18000));
    ("America/Chicago", (-18000)); ("America/Chihuahua", (-25200));
    ("America/Costa_Rica", (-21600)); ("America/Creston", (-25200));
    ("America/Cuiaba", (-14400)); ("America/Curacao", (-14400));
    ("America/Danmarkshavn", 0); ("America/Dawson", (-25200));
    ("America/Dawson_Creek", (-25200)); ("America/Denver", (-21600));
    ("America/Detroit", (-14400)); ("America/Dominica", (-14400));
    ("America/Edmonton", (-21600)); ("America/Eirunepe", (-18000));
    ("America/El_Salvador", (-21600)); ("America/Fort_Nelson", (-25200));
    ("America/Fortaleza", (-10800)); ("America/Glace_Bay", (-10800));
    ("America/Godthab", (-7200)); ("America/Goose_Bay", (-10800));
    ("America/Grand_Turk", (-14400)); ("America/Grenada", (-14400));
    ("America/Guadeloupe", (-14400)); ("America/Guatemala", (-21600));
    ("America/Guayaquil", (-18000)); ("America/Guyana", (-14400));
    ("America/Halifax", (-10800)); ("America/Havana", (-14400));
    ("America/Hermosillo", (-25200)); ("America/Indiana/Indianapolis", (-14400));
    ("America/Indiana/Knox", (-18000)); ("America/Indiana/Marengo", (-14400));
    ("America/Indiana/Petersburg", (-14400)); ("America/Indiana/Tell_City", (-18000));
    ("America/Indiana/Vevay", (-14400)); ("America/Indiana/Vincennes", (-14400));
    ("America/Indiana/Winamac", (-14400)); ("America/Inuvik", (-21600));
    ("America/Iqaluit", (-14400)); ("America/Jamaica", (-18000));
    ("America/Juneau", (-28800)); ("America/Kentucky/Louisville", (-14400));
    ("America/Kentucky/Monticello", (-14400)); ("America/Kralendijk", (-14400));
    ("America/La_Paz", (-14400)); ("America/Lima", (-18000));
    ("America/Los_Angeles", (-25200)); ("America/Lower_Princes", (-14400));
    ("America/Maceio", (-10800)); ("America/Managua", (-21600));
    ("America/Manaus", (-14400)); ("America/Marigot", (-14400));
    ("America/Martinique", (-14400)); ("America/Matamoros", (-18000));
    ("America/Mazatlan", (-25200)); ("America/Menominee", (-18000));
    ("America/Merida", (-21600)); ("America/Metlakatla", (-28800));
    ("America/Mexico_City", (-21600)); ("America/Miquelon", (-7200));
    ("America/Moncton", (-10800)); ("America/Monterrey", (-21600));
    ("America/Montevideo", (-10800)); ("America/Montserrat", (-14400));
    ("America/Nassau", (-14400)); ("America/New_York", (-14400));
    ("America/Nipigon", (-14400)); ("America/Nome", (-28800));
    ("America/Noronha", (-7200)); ("America/North_Dakota/Beulah", (-18000));
    ("America/North_Dakota/Center", (-18000));
    ("America/North_Dakota/New_Salem", (-18000)); ("America/Ojinaga", (-21600));
    ("America/Panama", (-18000)); ("America/Pangnirtung", (-14400));
    ("America/Paramaribo", (-10800)); ("America/Phoenix", (-25200));
    ("America/Port-au-Prince", (-14400)); ("America/Port_of_Spain", (-14400));
    ("America/Porto_Velho", (-14400)); ("America/Puerto_Rico", (-14400));
    ("America/Punta_Arenas", (-10800)); ("America/Rainy_River", (-18000));
    ("America/Rankin_Inlet", (-18000)); ("America/Recife", (-10800));
    ("America/Regina", (-21600)); ("America/Resolute", (-18000));
    ("America/Rio_Branco", (-18000)); ("America/Santarem", (-10800));
    ("America/Santiago", (-10800)); ("America/Santo_Domingo", (-14400));
    ("America/Sao_Paulo", (-10800)); ("America/Scoresbysund", 0);
    ("America/Sitka", (-28800)); ("America/St_Barthelemy", (-14400));
    ("America/St_Johns", (-9000)); ("America/St_Kitts", (-14400));
    ("America/St_Lucia", (-14400)); ("America/St_Thomas", (-14400));
    ("America/St_Vincent", (-14400)); ("America/Swift_Current", (-21600));
    ("America/Tegucigalpa", (-21600)); ("America/Thule", (-10800));
    ("America/Thunder_Bay", (-14400)); ("America/Tijuana", (-25200));
    ("America/Toronto", (-14400)); ("America/Tortola", (-14400));
    ("America/Vancouver", (-25200)); ("America/Whitehorse", (-25200));
    ("America/Winnipeg", (-18000)); ("America/Yakutat", (-28800));
    ("America/Yellowknife", (-21600)); ("Antarctica/Casey", 28800);
    ("Antarctica/Davis", 25200); ("Antarctica/DumontDUrville", 36000);
    ("Antarctica/Macquarie", 39600); ("Antarctica/Mawson", 18000);
    ("Antarctica/McMurdo", 46800); ("Antarctica/Palmer", (-10800));
    ("Antarctica/Rothera", (-10800)); ("Antarctica/Syowa", 10800);
    ("Antarctica/Troll", 7200); ("Antarctica/Vostok", 21600);
    ("Arctic/Longyearbyen", 7200); ("Asia/Aden", 10800); ("Asia/Almaty", 21600);
    ("Asia/Amman", 10800); ("Asia/Anadyr", 43200); ("Asia/Aqtau", 18000);
    ("Asia/Aqtobe", 18000); ("Asia/Ashgabat", 18000); ("Asia/Atyrau", 18000);
    ("Asia/Baghdad", 10800); ("Asia/Bahrain", 10800); ("Asia/Baku", 14400);
    ("Asia/Bangkok", 25200); ("Asia/Barnaul", 25200); ("Asia/Beirut", 10800);
    ("Asia/Bishkek", 21600); ("Asia/Brunei", 28800); ("Asia/Chita", 32400);
    ("Asia/Choibalsan", 28800); ("Asia/Colombo", 19800); ("Asia/Damascus", 10800);
    ("Asia/Dhaka", 21600); ("Asia/Dili", 32400); ("Asia/Dubai", 14400);
    ("Asia/Dushanbe", 18000); ("Asia/Famagusta", 10800); ("Asia/Gaza", 10800);
    ("Asia/Hebron", 10800); ("Asia/Ho_Chi_Minh", 25200); ("Asia/Hong_Kong", 28800);
    ("Asia/Hovd", 25200); ("Asia/Irkutsk", 28800); ("Asia/Jakarta", 25200);
    ("Asia/Jayapura", 32400); ("Asia/Jerusalem", 10800); ("Asia/Kabul", 16200);
    ("Asia/Kamchatka", 43200); ("Asia/Karachi", 18000); ("Asia/Kathmandu", 20700);
    ("Asia/Khandyga", 32400); ("Asia/Kolkata", 19800); ("Asia/Krasnoyarsk", 25200);
    ("Asia/Kuala_Lumpur", 28800); ("Asia/Kuching", 28800); ("Asia/Kuwait", 10800);
    ("Asia/Macau", 28800); ("Asia/Magadan", 39600); ("Asia/Makassar", 28800);
    ("Asia/Manila", 28800); ("Asia/Muscat", 14400); ("Asia/Nicosia", 10800);
    ("Asia/Novokuznetsk", 25200); ("Asia/Novosibirsk", 25200); ("Asia/Omsk", 21600);
    ("Asia/Oral", 18000); ("Asia/Phnom_Penh", 25200); ("Asia/Pontianak", 25200);
    ("Asia/Pyongyang", 32400); ("Asia/Qatar", 10800); ("Asia/Qostanay", 21600);
    ("Asia/Qyzylorda", 18000); ("Asia/Riyadh", 10800); ("Asia/Sakhalin", 39600);
    ("Asia/Samarkand", 18000); ("Asia/Seoul", 32400); ("Asia/Shanghai", 28800);
    ("Asia/Singapore", 28800); ("Asia/Srednekolymsk", 39600); ("Asia/Taipei", 28800);
    ("Asia/Tashkent", 18000); ("Asia/Tbilisi", 14400); ("Asia/Tehran", 16200);
    ("Asia/Thimphu", 21600); ("Asia/Tokyo", 32400); ("Asia/Tomsk", 25200);
    ("Asia/Ulaanbaatar", 28800); ("Asia/Urumqi", 21600); ("Asia/Ust-Nera", 36000);
    ("Asia/Vientiane", 25200); ("Asia/Vladivostok", 36000); ("Asia/Yakutsk", 32400);
    ("Asia/Yangon", 23400); ("Asia/Yekaterinburg", 18000); ("Asia/Yerevan", 14400);
    ("Atlantic/Azores", 0); ("Atlantic/Bermuda", (-10800)); ("Atlantic/Canary", 3600);
    ("Atlantic/Cape_Verde", (-3600)); ("Atlantic/Faroe", 3600);
    ("Atlantic/Madeira", 3600); ("Atlantic/Reykjavik", 0);
    ("Atlantic/South_Georgia", (-7200)); ("Atlantic/St_Helena", 0);
    ("Atlantic/Stanley", (-10800)); ("Australia/Adelaide", 37800);
    ("Australia/Brisbane", 36000); ("Australia/Broken_Hill", 37800);
    ("Australia/Currie", 39600); ("Australia/Darwin", 34200); ("Australia/Eucla", 31500);
    ("Australia/Hobart", 39600); ("Australia/Lindeman", 36000);
    ("Australia/Lord_Howe", 39600); ("Australia/Melbourne", 39600);
    ("Australia/Perth", 28800); ("Australia/Sydney", 39600); ("Europe/Amsterdam", 7200);
    ("Europe/Andorra", 7200); ("Europe/Astrakhan", 14400); ("Europe/Athens", 10800);
    ("Europe/Belgrade", 7200); ("Europe/Berlin", 7200); ("Europe/Bratislava", 7200);
    ("Europe/Brussels", 7200); ("Europe/Bucharest", 10800); ("Europe/Budapest", 7200);
    ("Europe/Busingen", 7200); ("Europe/Chisinau", 10800); ("Europe/Copenhagen", 7200);
    ("Europe/Dublin", 3600); ("Europe/Gibraltar", 7200); ("Europe/Guernsey", 3600);
    ("Europe/Helsinki", 10800); ("Europe/Isle_of_Man", 3600); ("Europe/Istanbul", 10800);
    ("Europe/Jersey", 3600); ("Europe/Kaliningrad", 7200); ("Europe/Kiev", 10800);
    ("Europe/Kirov", 10800); ("Europe/Lisbon", 3600); ("Europe/Ljubljana", 7200);
    ("Europe/London", 3600); ("Europe/Luxembourg", 7200); ("Europe/Madrid", 7200);
    ("Europe/Malta", 7200); ("Europe/Mariehamn", 10800); ("Europe/Minsk", 10800);
    ("Europe/Monaco", 7200); ("Europe/Moscow", 10800); ("Europe/Oslo", 7200);
    ("Europe/Paris", 7200); ("Europe/Podgorica", 7200); ("Europe/Prague", 7200);
    ("Europe/Riga", 10800); ("Europe/Rome", 7200); ("Europe/Samara", 14400);
    ("Europe/San_Marino", 7200); ("Europe/Sarajevo", 7200); ("Europe/Saratov", 14400);
    ("Europe/Simferopol", 10800); ("Europe/Skopje", 7200); ("Europe/Sofia", 10800);
    ("Europe/Stockholm", 7200); ("Europe/Tallinn", 10800); ("Europe/Tirane", 7200);
    ("Europe/Ulyanovsk", 14400); ("Europe/Uzhgorod", 10800); ("Europe/Vaduz", 7200);
    ("Europe/Vatican", 7200); ("Europe/Vienna", 7200); ("Europe/Vilnius", 10800);
    ("Europe/Volgograd", 14400); ("Europe/Warsaw", 7200); ("Europe/Zagreb", 7200);
    ("Europe/Zaporozhye", 10800); ("Europe/Zurich", 7200);
    ("Indian/Antananarivo", 10800); ("Indian/Chagos", 21600);
    ("Indian/Christmas", 25200); ("Indian/Cocos", 23400); ("Indian/Comoro", 10800);
    ("Indian/Kerguelen", 18000); ("Indian/Mahe", 14400); ("Indian/Maldives", 18000);
    ("Indian/Mauritius", 14400); ("Indian/Mayotte", 10800); ("Indian/Reunion", 14400);
    ("Pacific/Apia", 50400); ("Pacific/Auckland", 46800);
    ("Pacific/Bougainville", 39600); ("Pacific/Chatham", 49500);
    ("Pacific/Chuuk", 36000); ("Pacific/Easter", (-18000)); ("Pacific/Efate", 39600);
    ("Pacific/Enderbury", 46800); ("Pacific/Fakaofo", 46800); ("Pacific/Fiji", 43200);
    ("Pacific/Funafuti", 43200); ("Pacific/Galapagos", (-21600));
    ("Pacific/Gambier", (-32400)); ("Pacific/Guadalcanal", 39600);
    ("Pacific/Guam", 36000); ("Pacific/Honolulu", (-36000));
    ("Pacific/Kiritimati", 50400); ("Pacific/Kosrae", 39600);
    ("Pacific/Kwajalein", 43200); ("Pacific/Majuro", 43200);
    ("Pacific/Marquesas", (-34200)); ("Pacific/Midway", (-39600));
    ("Pacific/Nauru", 43200); ("Pacific/Niue", (-39600)); ("Pacific/Norfolk", 39600);
    ("Pacific/Noumea", 39600); ("Pacific/Pago_Pago", (-39600)); ("Pacific/Palau", 32400);
    ("Pacific/Pitcairn", (-28800)); ("Pacific/Pohnpei", 39600);
    ("Pacific/Port_Moresby", 36000); ("Pacific/Rarotonga", (-36000));
    ("Pacific/Saipan", 36000); ("Pacific/Tahiti", (-36000)); ("Pacific/Tarawa", 43200);
    ("Pacific/Tongatapu", 46800); ("Pacific/Wake", 43200); ("Pacific/Wallis", 43200);
    ("UTC", 0) ].

Definition s_summerTimezones : gmap string Z :=
  new_Map s_summerTimezones_entries.

(** *** Methods, as computations reading the host and updating the instance *)

Definition M (A : Type) : Type := Host -> UFTimezone -> A * UFTimezone.

#[local] Instance M_ret : MRet M := fun A a _ this => (a, this).

#[local] Instance M_bind : MBind M := fun A B k c host this =>
  let '(a, this') := c host this in k a host this'.

Definition ask {A : Type} (f : Host -> A) : M A := fun host this => (f host, this).

Definition read {A : Type} (f : UFTimezone -> A) : M A := fun _ this => (f this, this).

Definition emit (e : Event) : M unit :=
  fun _ this =>
    (tt, {| m_cache := m_cache this; m_php := m_php this;
            trace := trace this ++ [e] |}).

Definition write_cache (f : gmap string Offset -> gmap string Offset) : M unit :=
  fun _ this =>
    (tt, {| m_cache := f (m_cache this); m_php := m_php this;
            trace := trace this |}).

(** [await execFileAsync(file, args)]. *)
Definition await_execFileAsync (file : string) (args : list string) : M ExecOutcome :=
  emit (ExecFile file args);;
  ask (fun host => execFileAsync host file args).

(** Assigning the two fields of the object held in the local [offset]: when
    that object came out of the cache the map sees the assignment at once;
    a [new Offset()] is not yet in the map. *)
Definition assign_fields (aPhpTimezone : string) (o : Offset) : M unit :=
  write_cache (fun cache =>
    match cache !! aPhpTimezone with
    | Some _ => <[aPhpTimezone := o]> cache
    | None => cache
    end).

(** [UFTimezone.s_summerTimezones.get(aPhpTimezone) || 0]. *)
Definition generated (aPhpTimezone : string) : number :=
  match s_summerTimezones !! aPhpTimezone with
  | Some v => or (Num v) (Num 0)
  | None => Num 0
  end.

(** The PHP code handed to the interpreter: it prints the offset of the
    zone at this moment. *)
Definition php_script (aPhpTimezone : string) : string :=
  "echo (new DateTimeZone('" +:+ aPhpTimezone
  +:+ "'))->getOffset(new DateTime('now', new DateTimeZone('UTC')));".

(** Gets the difference to UTC in seconds, with a cache of one hour. *)
Definition getOffset (aPhpTimezone : string) : M number :=
  time_ ← ask UFSystem_time;
  cache ← read m_cache;
  let offset_ : Offset :=
    match cache !! aPhpTimezone with
    | Some o => o
    | None => new_Offset
    end in
  if time offset_ + CACHE_LIFE >? time_ then mret (offset offset_)
  else
    let args := php_script aPhpTimezone in
    php ← read m_php;
    outcome ← await_execFileAsync php ["-n"; "-r"; args];
    match outcome with
    | Resolved stdout stderr =>
        if truthy_string stderr then
          emit (LogError LOG_PREFIX None "getOffset" [stderr; aPhpTimezone]);;
          mret (generated aPhpTimezone)
        else
          let offset' := {| offset := parseInt stdout; time := time_ |} in
          assign_fields aPhpTimezone offset';;
          emit (LogDebug LOG_PREFIX "getOffset" aPhpTimezone offset');;
          write_cache (fun cache => <[aPhpTimezone := offset']> cache);;
          mret (offset offset')
    | Rejected error =>
        emit (LogError LOG_PREFIX (Some error) "getOffset" [aPhpTimezone]);;
        mret (generated aPhpTimezone)
    end.

(** Checks if the zone uses 24 hr formatting. *)
Definition is24 (aPhpTimezone : string) : bool :=
  (indexOf aPhpTimezone "America" <? 0) && (indexOf aPhpTimezone "London" <? 0).

(** *** Dates

    A [Date] holds a time value: milliseconds since the epoch, or [NaN]
    for an invalid date. *)

Record Date : Type := mkDate { getTime : number }.

(** TimeClip: a time value beyond 8.64e15 ms is not a date. *)
Definition TimeClip (v : number) : number :=
  match v with
  | Num t => if 8640000000000000 <? Z.abs t then NaN else Num t
  | NaN => NaN
  end.

(** [new Date(value)] for a number. *)
Definition new_Date (value : number) : Date := {| getTime := TimeClip value |}.

(** LocalTime(t): the time value shifted to the server's wall clock. *)
Definition LocalTime (host : Host) (t : Z) : Z :=
  t - 60000 * getTimezoneOffset host t.

Definition on_time_value (f : Z -> Z) (d : Date) : number :=
  match getTime d with
  | Num t => Num (f t)
  | NaN => NaN
  end.

Definition Date_getTimezoneOffset (d : Date) : M number :=
  ask (fun host => on_time_value (getTimezoneOffset host) d).

(** HourFromTime, MinFromTime and SecFromTime of the local time. *)
Definition getHours (d : Date) : M number :=
  ask (fun host => on_time_value (fun t => (LocalTime host t / 3600000) mod 24) d).

Definition getMinutes (d : Date) : M number :=
  ask (fun host => on_time_value (fun t => (LocalTime host t / 60000) mod 60) d).

Definition getSeconds (d : Date) : M number :=
  ask (fun host => on_time_value (fun t => (LocalTime host t / 1000) mod 60) d).

(** Gets the date/time for a specific timezone from a date/time using the
    timezone of the server. *)
Definition getLocalFromServerDate (aServerDate : Date) (aPhpTimezone : string)
  : M Date :=
  tzo ← Date_getTimezoneOffset aServerDate;
  seconds ← getOffset aPhpTimezone;
  mret (new_Date
          (add (add (getTime aServerDate) (mul (Num 60000) tzo))
               (mul (Num 1000) seconds))).

(** Converts a date/time for a certain timezone to the date/time using the
    timezone of the server. *)
Definition getServerFromLocalDate (aLocalDate : Date) (aPhpTimezone : string)
  : M Date :=
  seconds ← getOffset aPhpTimezone;
  tzo ← Date_getTimezoneOffset aLocalDate;
  mret (new_Date
          (sub (sub (getTime aLocalDate) (mul (Num 1000) seconds))
               (mul (Num 60000) tzo))).

(** Converts a date/time for a certain timezone to the utc date/time. *)
Definition getUtcFromLocalDate (aLocalDate : Date) (aPhpTimezone : string)
  : M Date :=
  seconds ← getOffset aPhpTimezone;
  mret (new_Date (sub (getTime aLocalDate) (mul (Num 1000) seconds))).

(** Modelled from the spec: [UFText.twoDigits] belongs to the package
    [@ultraforce/ts-general-lib], which is not part of this repository; the
    spec asks for minutes and seconds that are always two digits,
    zero-padded, so a number below 10 gets a leading zero. *)
Definition twoDigits (aNumber : number) : string :=
  if lt aNumber (Num 10) then "0" +:+ toString aNumber else toString aNumber.

(** Converts a date/time using the server timezone to a local time
    representation, either in 24 hour or in 12 hour format (am/pm). *)
Definition getLocalTime (aServerDate : Date) (aPhpTimezone : string)
    (anIncludeSeconds : bool) : M string :=
  localDate ← getLocalFromServerDate aServerDate aPhpTimezone;
  let is24_ := is24 aPhpTimezone in
  localHours ← getHours localDate;
  localMinutes ← getMinutes localDate;
  localSeconds ← getSeconds localDate;
  let hours := if is24_ then localHours else or (rem localHours (Num 12)) (Num 12) in
  let minutes := ":" +:+ twoDigits localMinutes in
  let seconds := if anIncludeSeconds then ":" +:+ twoDigits localSeconds else EmptyString in
  let postfix :=
    if is24_ then EmptyString
    else if lt localHours (Num 12) then " am" else " pm" in
  mret (toString hours +:+ minutes +:+ seconds +:+ postfix).

End UFTimezone.

(** ** Regular expressions, as [String.prototype.replace] uses them *)

Module RegExp.

(** A member of a character class: one character or a range. *)
Inductive ClassItem : Type :=
| One (c : ascii)
| Range (lo hi : ascii).

(** The patterns the sources are written in: a character, [.], [\s], a
    class [[...]] or [[^...]], sequence, alternative, the quantifiers [*]
    and [+] (greedy, or lazy when followed by [?]), and [$]. Groups only
    delimit, no replacement refers to a capture. *)
Inductive regex : Type :=
| Chr (c : ascii)
| Dot
| Space
| Class (negated : bool) (items : list ClassItem)
| Seq (r1 r2 : regex)
| Alt (r1 r2 : regex)
| Star (greedy : bool) (r : regex)
| Plus (greedy : bool) (r : regex)
| Eol.

(** Canonicalize, for the [i] flag: letters compare in upper case. *)
Definition canonicalize (ignoreCase : bool) (c : ascii) : ascii :=
  let n := nat_of_ascii c in
  if ignoreCase && (97 <=? n)%nat && (n <=? 122)%nat then ascii_of_nat (n - 32) else c.

Definition same_char (ignoreCase : bool) (a b : ascii) : bool :=
  Ascii.eqb (canonicalize ignoreCase a) (canonicalize ignoreCase b).

(** Line terminators within ASCII; [.] matches anything else. *)
Definition isLineTerminator (c : ascii) : bool :=
  Ascii.eqb c "010" || Ascii.eqb c "013".

(** [\s]: white space and line terminators. *)
Definition isSpace (c : ascii) : bool :=
  let n := nat_of_ascii c in
  ((9 <=? n) && (n <=? 13))%nat || (n =? 32)%nat.

(** A class member covers [c] when one of its characters canonicalizes to
    what [c] canonicalizes to. *)
Definition in_item (ignoreCase : bool) (c : ascii) (it : ClassItem) : bool :=
  match it with
  | One a => same_char ignoreCase a c
  | Range lo hi =>
      let l := nat_of_ascii lo in
      let h := nat_of_ascii hi in
      existsb (fun n => (l <=? n)%nat && (n <=? h)%nat
                        && same_char ignoreCase (ascii_of_nat n) c)
              (seq 0 256)
  end.

Definition in_class (ignoreCase negated : bool) (items : list ClassItem) (c : ascii)
  : bool :=
  xorb negated (existsb (in_item ignoreCase c) items).

(** One character of input against a one-character pattern. *)
Definition step (test : ascii -> bool) (s : string) (k : string -> option string)
  : option string :=
  match s with
  | String c rest => if test c then k rest else None
  | EmptyString => None
  end.

(** A backtracking matcher in continuation style: [run i r s k] matches
    [r] at the start of [s] and hands what is left to [k]; alternatives
    are tried in order and the first overall success wins. A quantifier
    refuses an iteration that consumes nothing, so it iterates at most
    [length s] times. The result is the input left after the match. *)
Fixpoint run (ignoreCase : bool) (r : regex) (s : string)
    (k : string -> option string) {struct r} : option string :=
  let repeat (greedy : bool) (body : regex) :=
    fix loop (n : nat) (s : string) {struct n} : option string :=
      match n with
      | O => k s
      | S n' =>
          let again :=
            run ignoreCase body s (fun s' =>
              if (String.length s' <? String.length s)%nat then loop n' s' else None) in
          if greedy then
            match again with
            | Some out => Some out
            | None => k s
            end
          else
            match k s with
            | Some out => Some out
            | None => again
            end
      end in
  match r with
  | Chr c => step (same_char ignoreCase c) s k
  | Dot => step (fun c => negb (isLineTerminator c)) s k
  | Space => step isSpace s k
  | Class negated items => step (in_class ignoreCase negated items) s k
  | Seq r1 r2 => run ignoreCase r1 s (fun s' => run ignoreCase r2 s' k)
  | Alt r1 r2 =>
      match run ignoreCase r1 s k with
      | Some out => Some out
      | None => run ignoreCase r2 s k
      end
  | Star greedy body => repeat greedy body (String.length s) s
  | Plus greedy body =>
      run ignoreCase body s (fun s' => repeat greedy body (String.length s') s')
  | Eol =>
      match s with
      | EmptyString => k s
      | String _ _ => None
      end
  end.

(** A match at the start of [s]: the matched text and what follows it. *)
Definition match_here (ignoreCase : bool) (r : regex) (s : string)
  : option (string * string) :=
  match run ignoreCase r s Some with
  | Some rest =>
      Some (substring 0 (String.length s - String.length rest) s, rest)
  | None => None
  end.

(** [s.replace(/r/g, f)]: every match, found from left to right, is
    replaced by what [f] returns for it; after an empty match the search
    moves one character on. *)
Fixpoint replace_all_from (fuel : nat) (ignoreCase : bool) (r : regex)
    (f : string -> string) (s : string) : string :=
  match fuel with
  | O => s
  | S fuel' =>
      let skip :=
        match s with
        | String c s' => String c (replace_all_from fuel' ignoreCase r f s')
        | EmptyString => EmptyString
        end in
      match match_here ignoreCase r s with
      | Some (EmptyString, _) => f EmptyString +:+ skip
      | Some (matched, rest) =>
          f matched +:+ replace_all_from fuel' ignoreCase r f rest
      | None => skip
      end
  end.

Definition replace_all (ignoreCase : bool) (r : regex) (f : string -> string)
    (s : string) : string :=
  replace_all_from (S (String.length s)) ignoreCase r f s.

(** [s.replace(/r/, f)]: the leftmost match only. *)
Fixpoint replace_first (ignoreCase : bool) (r : regex) (f : string -> string)
    (s : string) : string :=
  match match_here ignoreCase r s with
  | Some (matched, rest) => f matched +:+ rest
  | None =>
      match s with
      | String c s' => String c (replace_first ignoreCase r f s')
      | EmptyString => EmptyString
      end
  end.

(** [s.replace(pattern, replacement)] with a string pattern: the first
    occurrence only. *)
Fixpoint replace_string (pattern replacement : string) (s : string) : string :=
  if String.prefix pattern s then
    replacement +:+ substring (String.length pattern)
                      (String.length s - String.length pattern) s
  else
    match s with
    | String c s' => String c (replace_string pattern replacement s')
    | EmptyString => EmptyString
    end.

(** A literal run of characters. *)
Fixpoint lit (c : ascii) (s : string) : regex :=
  match s with
  | EmptyString => Chr c
  | String c' s' => Seq (Chr c) (lit c' s')
  end.

End RegExp.

(** ** JSON values and [JSON.parse] *)

Module JSON.

(** A parsed string is a sequence of UTF-16 code units, since an escape
    [\uXXXX] names any of them. *)
Definition code_units (s : string) : list N :=
  map N_of_ascii (list_ascii_of_string s).

(** What [JSON.parse] builds. An object keeps its properties in the order
    they were first set. *)
Inductive json : Type :=
| JNull
| JBool (b : bool)
| JNumber (q : Q)
| JString (s : list N)
| JArray (elements : list json)
| JObject (properties : list (list N * json)).

(** The double quote character. *)
Definition dquote : ascii := "034".

(** JSON white space: tab, line feed, carriage return, space. *)
Definition isJsonSpace (c : ascii) : bool :=
  Ascii.eqb c "009" || Ascii.eqb c "010" || Ascii.eqb c "013" || Ascii.eqb c " ".

Fixpoint skip_ws (s : string) : string :=
  match s with
  | String c s' => if isJsonSpace c then skip_ws s' else s
  | EmptyString => s
  end.

(** [s] without its prefix [p], when it starts with [p]. *)
Fixpoint strip_prefix (p s : string) : option string :=
  match p, s with
  | EmptyString, _ => Some s
  | String a p', String b s' => if Ascii.eqb a b then strip_prefix p' s' else None
  | String _ _, EmptyString => None
  end.

Definition isDigit (c : ascii) : bool :=
  let n := nat_of_ascii c in ((48 <=? n) && (n <=? 57))%nat.

(** The leading decimal digits of [s] and what follows them. *)
Fixpoint take_digits (s : string) : string * string :=
  match s with
  | String c s' =>
      if isDigit c then let '(ds, r) := take_digits s' in (String c ds, r)
      else (EmptyString, s)
  | EmptyString => (EmptyString, s)
  end.

Fixpoint digits_value (acc : Z) (ds : string) : Z :=
  match ds with
  | String c ds' => digits_value (acc * 10 + (Z.of_nat (nat_of_ascii c) - 48)) ds'
  | EmptyString => acc
  end.

(** [m * 10 ^ e] as a reduced fraction. *)
Definition decimal (m e : Z) : Q :=
  if 0 <=? e then Qmake (m * 10 ^ e) 1
  else Qred (Qmake m (Z.to_pos (10 ^ (- e)))).

(** A number: [-]? int frac? exp?, where int has no superfluous leading
    zero, and frac and exp have at least one digit. *)
Definition parse_number (s : string) : option (Q * string) :=
  let '(negative, s1) :=
    match s with
    | String "-" r => (true, r)
    | _ => (false, s)
    end in
  let int_part :=
    match s1 with
    | String "0" r => Some ("0", r)
    | _ => match take_digits s1 with
           | (EmptyString, _) => None
           | (ds, r) => Some (ds, r)
           end
    end in
  match int_part with
  | None => None
  | Some (ip, s2) =>
      let frac_part :=
        match s2 with
        | String "." r =>
            match take_digits r with
            | (EmptyString, _) => None
            | (ds, r') => Some (ds, r')
            end
        | _ => Some (EmptyString, s2)
        end in
      match frac_part with
      | None => None
      | Some (fp, s3) =>
          let exp_part :=
            match s3 with
            | String c r =>
                if Ascii.eqb c "e" || Ascii.eqb c "E" then
                  let '(sign, r1) :=
                    match r with
                    | String "-" r' => (-1, r')
                    | String "+" r' => (1, r')
                    | _ => (1, r)
                    end in
                  match take_digits r1 with
                  | (EmptyString, _) => None
                  | (ds, r') => Some (sign * digits_value 0 ds, r')
                  end
                else Some (0, s3)
            | EmptyString => Some (0, s3)
            end in
          match exp_part with
          | None => None
          | Some (e, s4) =>
              let m := digits_value 0 (ip +:+ fp) in
              let q := decimal (if negative then - m else m)
                               (e - Z.of_nat (String.length fp)) in
              Some (q, s4)
          end
      end
  end.

Definition hexValue (c : ascii) : option N :=
  let n := N_of_ascii c in
  (if (48 <=? n) && (n <=? 57) then Some (n - 48)
   else if (97 <=? n) && (n <=? 102) then Some (n - 87)
   else if (65 <=? n) && (n <=? 70) then Some (n - 55)
   else None)%N.

(** The characters of a string literal after its opening quote, up to the
    closing quote: no raw control character, and the escapes of JSON. *)
Fixpoint parse_string (s : string) : option (list N * string) :=
  let cons (u : N) (r : option (list N * string)) :=
    match r with
    | Some (us, rest) => Some (u :: us, rest)
    | None => None
    end in
  match s with
  | EmptyString => None
  | String c s' =>
      if Ascii.eqb c dquote then Some ([], s')
      else if Ascii.eqb c "\" then
        match s' with
        | String "u" (String h1 (String h2 (String h3 (String h4 s'')))) =>
            match hexValue h1, hexValue h2, hexValue h3, hexValue h4 with
            | Some a, Some b, Some c, Some d =>
                cons (((a * 16 + b) * 16 + c) * 16 + d)%N (parse_string s'')
            | _, _, _, _ => None
            end
        | String e s'' =>
            let unit :=
              if Ascii.eqb e dquote then Some 34%N
              else if Ascii.eqb e "\" then Some 92%N
              else if Ascii.eqb e "/" then Some 47%N
              else if Ascii.eqb e "b" then Some 8%N
              else if Ascii.eqb e "f" then Some 12%N
              else if Ascii.eqb e "n" then Some 10%N
              else if Ascii.eqb e "r" then Some 13%N
              else if Ascii.eqb e "t" then Some 9%N
              else None in
            match unit with
            | Some u => cons u (parse_string s'')
            | None => None
            end
        | EmptyString => None
        end
      else if (N_of_ascii c <? 32)%N then None
      else cons (N_of_ascii c) (parse_string s')
  end.

(** Setting a property: an existing key keeps its place and takes the new
    value, a new key goes last. *)
Fixpoint set_property (key : list N) (v : json) (props : list (list N * json))
  : list (list N * json) :=
  match props with
  | [] => [(key, v)]
  | (k, w) :: props' =>
      if decide (k = key) then (k, v) :: props'
      else (k, w) :: set_property key v props'
  end.

(** A value at the start of [s] (after white space) and what follows it.
    Each call either descends into a shorter text or is the one step
    from a bracket to its first element, so fuel of twice the length of
    the text is never used up. *)
Fixpoint parse_value (fuel : nat) (s : string) {struct fuel}
  : option (json * string) :=
  match fuel with
  | O => None
  | S n =>
      match skip_ws s with
      | EmptyString => None
      | String c r as s0 =>
          if Ascii.eqb c "{" then
            match skip_ws r with
            | String "}" r' => Some (JObject [], r')
            | r1 => parse_members n [] r1
            end
          else if Ascii.eqb c "[" then
            match skip_ws r with
            | String "]" r' => Some (JArray [], r')
            | r1 => parse_elements n [] r1
            end
          else if Ascii.eqb c dquote then
            match parse_string r with
            | Some (us, r') => Some (JString us, r')
            | None => None
            end
          else
            match strip_prefix "true" s0, strip_prefix "false" s0,
                  strip_prefix "null" s0 with
            | Some r', _, _ => Some (JBool true, r')
            | _, Some r', _ => Some (JBool false, r')
            | _, _, Some r' => Some (JNull, r')
            | None, None, None =>
                match parse_number s0 with
                | Some (q, r') => Some (JNumber q, r')
                | None => None
                end
            end
      end
  end
with parse_elements (fuel : nat) (acc : list json) (s : string) {struct fuel}
  : option (json * string) :=
  match fuel with
  | O => None
  | S n =>
      match parse_value n s with
      | Some (v, r) =>
          match skip_ws r with
          | String "," r' => parse_elements n (acc ++ [v]) r'
          | String "]" r' => Some (JArray (acc ++ [v]), r')
          | _ => None
          end
      | None => None
      end
  end
with parse_members (fuel : nat) (acc : list (list N * json)) (s : string)
    {struct fuel} : option (json * string) :=
  match fuel with
  | O => None
  | S n =>
      match skip_ws s with
      | String c r =>
          if Ascii.eqb c dquote then
            match parse_string r with
            | Some (key, r1) =>
                match skip_ws r1 with
                | String ":" r2 =>
                    match parse_value n r2 with
                    | Some (v, r3) =>
                        match skip_ws r3 with
                        | String "," r4 => parse_members n (set_property key v acc) r4
                        | String "}" r4 => Some (JObject (set_property key v acc), r4)
                        | _ => None
                        end
                    | None => None
                    end
                | _ => None
                end
            | None => None
            end
          else None
      | EmptyString => None
      end
  end.

(** [JSON.parse(text)]: one value, white space around it, nothing else;
    [None] stands for the SyntaxError thrown otherwise. *)
Definition parse (text : string) : option json :=
  match parse_value (2 * String.length text + 2) text with
  | Some (v, rest) =>
      match skip_ws rest with
      | EmptyString => Some v
      | String _ _ => None
      end
  | None => None
  end.

End JSON.

(** ** [UFPhp]: reading a PHP configuration file *)

Module UFPhp.
Import RegExp JSON.

(** What is thrown: the rejection of a file system promise, or the
    SyntaxError of [JSON.parse]. *)
Inductive Error : Type :=
| FsError (code : string)
| SyntaxError.

(** A settled promise. *)
Inductive Settled (A : Type) : Type :=
| Fulfilled (a : A)
| RejectedWith (e : Error).
Arguments Fulfilled {A} a.
Arguments RejectedWith {A} e.

(** [access] and [readFile] of [fs/promises]; a file is read as text. *)
Record FileSystem : Type := mkFileSystem {
  access : string -> Settled unit;
  readFile : string -> Settled string
}.

(** How a piece of code completes. *)
Inductive Completion (A : Type) : Type :=
| Normal (a : A)
| Throw (e : Error).
Arguments Normal {A} a.
Arguments Throw {A} e.

(** A computation reads the file system, may throw, and appends to what
    [console.error] has printed. *)
Definition X (A : Type) : Type :=
  FileSystem -> list Error -> Completion A * list Error.

#[local] Instance X_ret : MRet X := fun A a _ console => (Normal a, console).

#[local] Instance X_bind : MBind X := fun A B k c fs console =>
  match c fs console with
  | (Normal a, console') => k a fs console'
  | (Throw e, console') => (Throw e, console')
  end.

Definition throw {A : Type} (e : Error) : X A := fun _ console => (Throw e, console).

(** [try { body } catch (error) { handler }]. *)
Definition try_catch {A : Type} (body : X A) (handler : Error -> X A) : X A :=
  fun fs console =>
    match body fs console with
    | (Normal a, console') => (Normal a, console')
    | (Throw e, console') => handler e fs console'
    end.

(** [await promise]: a rejection is thrown. *)
Definition await {A : Type} (promise : FileSystem -> Settled A) : X A :=
  fun fs console =>
    match promise fs with
    | Fulfilled a => (Normal a, console)
    | RejectedWith e => (Throw e, console)
    end.

Definition console_error (e : Error) : X unit :=
  fun _ console => (Normal tt, (console ++ [e])%list).

Definition JSON_parse (text : string) : X json :=
  match JSON.parse text with
  | Some v => mret v
  | None => throw SyntaxError
  end.

(** The function given to [replace] for a value that follows [=>]. *)
Definition quote_value (x : string) : string :=
  (* get value after => without the , *)
  let x := replace_first false (Seq (lit "=" ">") (Plus true Space))
             (fun _ => EmptyString) x in
  let x := replace_first false (Seq (Chr ",") Eol) (fun _ => EmptyString) x in
  (* add quotes if value does not match a known literal value *)
  let x :=
    if negb (String.eqb x "true") && negb (String.eqb x "false")
       && negb (String.eqb x "null")
    then "'" +:+ replace_all false (Chr "'") (fun _ => "\'") x +:+ "'"
    else x in
  "=> " +:+ x +:+ ",".

(** The [try] block of [parsePhpConfig]: the array the file returns is
    rewritten to JSON text and then parsed. *)
Definition parsePhpConfig_try (aFilename : string) : X json :=
    (await (fun fs => access fs aFilename);;
     phpConfig ← await (fun fs => readFile fs aFilename);
     let config := phpConfig in
     (* remove comments *)
     let config :=
       replace_all true
         (Seq (lit "/" "*")
            (Seq (Star false (Alt Dot (Class false [One "013"; One "010"])))
               (Seq (Plus true (Chr "*")) (Chr "/"))))
         (fun _ => EmptyString) config in
     let config :=
       replace_all true (Seq (lit "/" "/") (Plus true Dot))
         (fun _ => EmptyString) config in
     (* remove use *)
     let config :=
       replace_all true (Seq (lit "u" "se") (Seq (Star true Dot) (Chr ";")))
         (fun _ => EmptyString) config in
     (* remove other php snippets *)
     let config :=
       replace_string ";" EmptyString
         (replace_string "return " EmptyString
            (replace_string "<?php" EmptyString config)) in
     (* add quotes to values that are not starting with a quote or number
        and are not equal to true/false/null *)
     let config :=
       replace_all true
         (Seq (lit "=" ">")
            (Seq (Plus true Space)
               (Seq (Class true [Range "0" "9"; One dquote; One "'"])
                  (Seq (Star true Dot) (Chr ",")))))
         quote_value config in
     (* replace array defs with object def *)
     let config :=
       replace_all true (lit "=" ">") (fun _ => ":")
         (replace_all true (Chr "]") (fun _ => "}")
            (replace_all true (Chr "[") (fun _ => "{") config)) in
     (* remove any , without a new property following it *)
     let config :=
       replace_all true
         (Seq (Chr ",")
            (Seq (Star false (Alt Space (Class false [One "013"; One "010"])))
               (Chr "}")))
         (fun _ => "}") config in
     (* json uses double quotes *)
     let config :=
       replace_all true (Chr "'") (fun _ => String dquote EmptyString) config in
     (* parse as json *)
     JSON_parse config).

(** Parses a php configuration file; whatever the [try] block throws is
    printed and [false] is returned. *)
Definition parsePhpConfig (aFilename : string) : X json :=
  try_catch (parsePhpConfig_try aFilename)
    (fun error =>
       console_error error;;
       mret (JBool false)).

End UFPhp.

(** * Properties *)

Import Js UFTimezone.

(** ** Vocabulary of the offset cache *)

(** The entry a call works on: the cached one, or a new one. *)
Definition entry (this : UFTimezone) (zone : string) : Offset :=
  default new_Offset (m_cache this !! zone).

(** An entry is fresh while less than the cache life has passed since it
    was captured. *)
Definition fresh (host : Host) (o : Offset) : Prop :=
  UFSystem_time host - time o < CACHE_LIFE.

(** What the interpreter answers when asked for the offset of [zone]. *)
Definition refresh (host : Host) (this : UFTimezone) (zone : string) : ExecOutcome :=
  execFileAsync host (m_php this) ["-n"; "-r"; php_script zone].

(** The external computation fails: the promise rejects (spawn error,
    non-zero exit code), or there is output on stderr. *)
Definition failed (o : ExecOutcome) : Prop :=
  match o with
  | Rejected _ => True
  | Resolved _ stderr => stderr ≠ EmptyString
  end.

(** The instance after further collaborator calls, the cache untouched. *)
Definition traced (this : UFTimezone) (events : list Event) : UFTimezone :=
  {| m_cache := m_cache this; m_php := m_php this;
     trace := trace this ++ events |}.

(** The value in the summer table, or [0]. *)
Definition summer_or_0 (zone : string) : Z :=
  default 0 (s_summerTimezones !! zone).

(** A run of calls of [getOffset], each with the host as it is then. *)
Fixpoint getOffset_calls (calls : list (Host * string)) (this : UFTimezone)
  : UFTimezone :=
  match calls with
  | [] => this
  | (host, zone) :: calls' => getOffset_calls calls' (getOffset zone host this).2
  end.


(** The external computation succeeds: it answers on stdout only. *)
Definition succeeded (o : ExecOutcome) : Prop :=
  ∃ stdout, o = Resolved stdout EmptyString.

(** *** Hosts and instances for the examples *)

(** A server on UTC whose PHP interpreter cannot be started. *)
Definition host_rejecting (now : Z) : Host :=
  {| UFSystem_time := now;
     execFileAsync := fun _ _ => Rejected "ENOENT";
     getTimezoneOffset := fun _ => 0 |}.

(** A server on UTC whose interpreter prints [stdout] and exits with 0. *)
Definition host_answering (now : Z) (stdout : string) : Host :=
  {| UFSystem_time := now;
     execFileAsync := fun _ _ => Resolved stdout EmptyString;
     getTimezoneOffset := fun _ => 0 |}.

(** An instance that stored the offset of "Europe/Paris" at time 1000. *)
Definition instance_with_Paris : UFTimezone :=
  (getOffset "Europe/Paris" (host_answering 1000 "7200") (new_UFTimezone "php")).2.

(** A server on Amsterdam time around the start of summer time 2021
    (2021-03-28 01:00 UTC): 60 minutes east of UTC before it, 120 after;
    its interpreter answers 32400, the offset of "Asia/Tokyo". *)
Definition host_Amsterdam (now : Z) : Host :=
  {| UFSystem_time := now;
     execFileAsync := fun _ _ => Resolved "32400" EmptyString;
     getTimezoneOffset := fun t => if t <? 1616893200000 then -60 else -120 |}.

(** *** Vocabulary of the formatted time *)

(** Two decimal digits, the first one 0 for a number below 10. *)
Definition two_digits (n : Z) : string :=
  String (ascii_of_nat (48 + Z.to_nat (n / 10)))
    (String (ascii_of_nat (48 + Z.to_nat (n mod 10))) EmptyString).


(** *** Files and values for the examples of [UFPhp] *)

(** Lines joined by line feeds. *)
Fixpoint lines (ls : list string) : string :=
  match ls with
  | [] => EmptyString
  | [l] => l
  | l :: ls' => l +:+ String "010" (lines ls')
  end.

(** A text between double quotes. *)
Definition quoted (s : string) : string :=
  String JSON.dquote (s +:+ String JSON.dquote EmptyString).

(** A configuration file with a number, a string and a boolean. *)
Definition config_abc : string :=
  lines ["<?php"; "return ["; "  'a' => 1,"; "  'b' => 'x',"; "  'c' => true,"; "];"].

(** The JSON document the file stands for. *)
Definition json_abc : string :=
  "{" +:+ quoted "a" +:+ ": 1, " +:+ quoted "b" +:+ ": " +:+ quoted "x" +:+ ", "
  +:+ quoted "c" +:+ ": true}".

(** The value of that document. *)
Definition value_abc : JSON.json :=
  JSON.JObject
    [(JSON.code_units "a", JSON.JNumber 1);
     (JSON.code_units "b", JSON.JString (JSON.code_units "x"));
     (JSON.code_units "c", JSON.JBool true)].

(** A file system on which every file is readable and has content [text]. *)
Definition fs_with (text : string) : UFPhp.FileSystem :=
  {| UFPhp.access := fun _ => UFPhp.Fulfilled tt;
     UFPhp.readFile := fun _ => UFPhp.Fulfilled text |}.

(** A file system without any file. *)
Definition fs_empty : UFPhp.FileSystem :=
  {| UFPhp.access := fun _ => UFPhp.RejectedWith (UFPhp.FsError "ENOENT");
     UFPhp.readFile := fun _ => UFPhp.RejectedWith (UFPhp.FsError "ENOENT") |}.

(** A file system on which files are found but cannot be read. *)
Definition fs_unreadable : UFPhp.FileSystem :=
  {| UFPhp.access := fun _ => UFPhp.Fulfilled tt;
     UFPhp.readFile := fun _ => UFPhp.RejectedWith (UFPhp.FsError "EISDIR") |}.

(** *** Vocabulary of the further properties *)

(** The characters of a list of decimal digits, before [rest]. *)
Fixpoint render (ds : list Z) (rest : string) : string :=
  match ds with
  | [] => rest
  | d :: ds' => String (ascii_of_nat (48 + Z.to_nat d)) (render ds' rest)
  end.

(** The number a list of decimal digits stands for, continuing from [a]. *)
Definition decimal_value (a : Z) (ds : list Z) : Z :=
  fold_left (fun a d => a * 10 + d) ds a.

(** What may follow the number an interpreter prints: nothing, or text
    that starts with white space (a line feed, say). *)
Definition ends_number (rest : string) : Prop :=
  match rest with
  | EmptyString => True
  | String c _ => isWhiteSpace c = true
  end.

(** [sub] occurs in [s]. *)
Definition contains (s sub : string) : Prop :=
  ∃ pre post, s = pre +:+ sub +:+ post.

(** The number of interpreter runs among some collaborator calls. *)
Fixpoint count_exec (events : list Event) : nat :=
  match events with
  | [] => O
  | ExecFile _ _ :: events' => S (count_exec events')
  | _ :: events' => count_exec events'
  end.

(** No stored offset is [NaN]. *)
Definition numeric_cache (cache : gmap string Offset) : Prop :=
  ∀ zone o, cache !! zone = Some o -> offset o ≠ NaN.

(** The interpreter's answer can be used: the call fails, or [parseInt]
    reads a number from stdout. *)
Definition usable (o : ExecOutcome) : Prop :=
  match o with
  | Rejected _ => True
  | Resolved stdout stderr => stderr ≠ EmptyString ∨ parseInt stdout ≠ NaN
  end.

(** The character [c] occurs in [s]. *)
Fixpoint occurs (c : ascii) (s : string) : bool :=
  match s with
  | EmptyString => false
  | String a s' => Ascii.eqb c a || occurs c s'
  end.

(** The value is an array or has an array somewhere among its properties. *)
Fixpoint has_array (j : JSON.json) : bool :=
  match j with
  | JSON.JArray _ => true
  | JSON.JObject properties => existsb (fun kv => has_array kv.2) properties
  | _ => false
  end.

(** Every character of [s] is one that [\s] matches. *)
Fixpoint all_space (s : string) : bool :=
  match s with
  | EmptyString => true
  | String a s' => RegExp.isSpace a && all_space s'
  end.

(** [s] does not start with a character that [\s] matches. *)
Definition starts_without_space (s : string) : bool :=
  match s with
  | EmptyString => true
  | String a _ => negb (RegExp.isSpace a)
  end.

(** [v] with a backslash before every single quote. *)
Fixpoint escape_quotes (v : string) : string :=
  match v with
  | EmptyString => EmptyString
  | String a v' =>
      if Ascii.eqb a "'" then String "\" (String "'" (escape_quotes v'))
      else String a (escape_quotes v')
  end.

(** The values that are left without quotes. *)
Definition is_literal (v : string) : bool :=
  String.eqb v "true" || String.eqb v "false" || String.eqb v "null".

Section GetOffset.

Variables (host : Host) (this : UFTimezone) (zone : string).

Lemma generated_summer_or_0 : generated zone = Num (summer_or_0 zone).
Proof.
  unfold generated, summer_or_0.
  destruct (s_summerTimezones !! zone) as [v|]; simpl; [|reflexivity].
  unfold or, truthy. destruct (Z.eqb_spec v 0); simpl; congruence.
Qed.

Lemma traced_nil : traced this [] = this.
Proof. destruct this; unfold traced; simpl. by rewrite app_nil_r. Qed.

Lemma expired_test :
  ¬ fresh host (entry this zone) ->
  (time (entry this zone) + CACHE_LIFE >? UFSystem_time host) = false.
Proof. unfold fresh. intros H. rewrite Z.gtb_ltb. apply Z.ltb_ge. lia. Qed.

Lemma fresh_test :
  fresh host (entry this zone) ->
  (time (entry this zone) + CACHE_LIFE >? UFSystem_time host) = true.
Proof. unfold fresh. intros H. rewrite Z.gtb_ltb. apply Z.ltb_lt. lia. Qed.

(** A fresh entry is returned as it is. *)
Lemma getOffset_fresh :
  fresh host (entry this zone) ->
  getOffset zone host this = (offset (entry this zone), this).
Proof.
  intros H. apply fresh_test in H. unfold entry in H.
  unfold getOffset, mbind, M_bind, ask, read; simpl.
  unfold default in H. simpl in H. by rewrite H.
Qed.

(** An expired entry and a failing interpreter: the generated value. *)
Lemma getOffset_failed :
  ¬ fresh host (entry this zone) -> failed (refresh host this zone) ->
  ∃ e, getOffset zone host this =
       (Num (summer_or_0 zone),
        traced this [ExecFile (m_php this) ["-n"; "-r"; php_script zone]; e])
       ∧ ∃ error details, e = LogError LOG_PREFIX error "getOffset" details.
Proof.
  intros H F. apply expired_test in H. unfold entry, default in H; simpl in H.
  unfold failed, refresh in F.
  unfold getOffset, mbind, M_bind, ask, read; simpl. rewrite H.
  unfold await_execFileAsync, emit, mbind, M_bind, ask, mret, M_ret; simpl.
  destruct (execFileAsync host (m_php this) _) as [stdout stderr|error].
  - destruct stderr as [|c stderr]; [done|]. simpl.
    rewrite generated_summer_or_0. unfold traced.
    rewrite <- app_assoc. simpl. eauto 6.
  - simpl. rewrite generated_summer_or_0. unfold traced.
    rewrite <- app_assoc. simpl. eauto 6.
Qed.

(** An expired entry and an interpreter that answers on stdout only: what
    [parseInt] makes of the answer is stored and returned. *)
Lemma getOffset_resolved (stdout : string) :
  ¬ fresh host (entry this zone) ->
  refresh host this zone = Resolved stdout EmptyString ->
  let o := {| offset := parseInt stdout; time := UFSystem_time host |} in
  getOffset zone host this =
  (parseInt stdout,
   {| m_cache := <[zone := o]> (m_cache this); m_php := m_php this;
      trace := trace this
               ++ [ExecFile (m_php this) ["-n"; "-r"; php_script zone];
                   LogDebug LOG_PREFIX "getOffset" zone o] |}).
Proof.
  intros H R. apply expired_test in H. unfold entry, default in H; simpl in H.
  unfold refresh in R.
  unfold getOffset, mbind, M_bind, ask, read; simpl. rewrite H.
  unfold await_execFileAsync, emit, mbind, M_bind, ask, mret, M_ret; simpl.
  rewrite R. simpl.
  unfold assign_fields, write_cache, emit, mbind, M_bind, mret, M_ret; simpl.
  rewrite <- app_assoc. simpl. f_equal. f_equal.
  destruct (m_cache this !! zone); [apply insert_insert_eq|reflexivity].
Qed.

End GetOffset.

(** ** The offset cache *)

Lemma summer_London : s_summerTimezones !! "Europe/London" = Some 3600.
Proof. vm_compute. reflexivity. Qed.

Lemma outcome_cases (o : ExecOutcome) : failed o ∨ succeeded o.
Proof.
  destruct o as [stdout [|c stderr]|error]; simpl; [right|left|left]; try done.
  by exists stdout.
Qed.

Lemma failed_not_succeeded (o : ExecOutcome) : failed o -> ¬ succeeded o.
Proof. intros F [stdout ->]. simpl in F. done. Qed.

Lemma fresh_dec (host : Host) (o : Offset) : fresh host o ∨ ¬ fresh host o.
Proof. unfold fresh. lia. Qed.

(** C1, as the code has it. When the external computation fails (the
    promise rejects, or stderr is not empty), [getOffset] returns the
    value of the zone in the summer table, or 0 for a zone that is not in
    it; for "Europe/London" that value is 3600. *)
Theorem getOffset_failure_summer_table (host : Host) (this : UFTimezone) (zone : string) :
  ¬ fresh host (entry this zone) ->
  failed (refresh host this zone) ->
  (getOffset zone host this).1 = Num (default 0 (s_summerTimezones !! zone))
  ∧ (zone = "Europe/London" -> (getOffset zone host this).1 = Num 3600).
Proof.
  intros H F. destruct (getOffset_failed host this zone H F) as (e & -> & _).
  split; [reflexivity|]. intros ->. simpl. unfold summer_or_0.
  by rewrite summer_London.
Qed.

(** With no interpreter, the first lookup of "Europe/London" gives the
    summer value. *)
Lemma getOffset_failure_summer_table_witness :
  (getOffset "Europe/London" (host_rejecting 0) (new_UFTimezone "php")).1
  = Num (default 0 (s_summerTimezones !! "Europe/London"))
  ∧ ("Europe/London" = "Europe/London" ->
     (getOffset "Europe/London" (host_rejecting 0) (new_UFTimezone "php")).1 = Num 3600).
Proof.
  apply (getOffset_failure_summer_table (host_rejecting 0) (new_UFTimezone "php")
           "Europe/London").
  - unfold fresh. vm_compute. intros H. discriminate H.
  - exact I.
Defined.

(** C1, as the spec states it, fails: with the interpreter missing, the
    first [getOffset "Europe/London"] returns 3600, not 0. *)
Lemma getOffset_London_failure_not_0 :
  ¬ fresh (host_rejecting 0) (entry (new_UFTimezone "php") "Europe/London")
  ∧ failed (refresh (host_rejecting 0) (new_UFTimezone "php") "Europe/London")
  ∧ (getOffset "Europe/London" (host_rejecting 0) (new_UFTimezone "php")).1 = Num 3600
  ∧ (getOffset "Europe/London" (host_rejecting 0) (new_UFTimezone "php")).1 ≠ Num 0.
Proof.
  split; [unfold fresh; vm_compute; intros H; discriminate H|].
  split; [exact I|].
  split; [vm_compute; reflexivity|vm_compute; intros H; discriminate H].
Qed.

(** C2. An interpreter that exits with code 0, writes nothing on stderr
    and nothing that [parseInt] can read on stdout: [getOffset] returns
    [NaN] instead of 7200, the summer value of "Europe/Paris", stores [NaN]
    as a fresh entry, logs at debug level only, and half an hour later
    still answers [NaN] without asking the interpreter. *)
Theorem getOffset_unparsable_stdout_NaN :
  let this := new_UFTimezone "php" in
  let first := getOffset "Europe/Paris" (host_answering 1000 EmptyString) this in
  let second := getOffset "Europe/Paris" (host_rejecting 1801000) first.2 in
  parseInt EmptyString = NaN
  ∧ first.1 = NaN
  ∧ generated "Europe/Paris" = Num 7200
  ∧ m_cache first.2 !! "Europe/Paris" = Some {| offset := NaN; time := 1000 |}
  ∧ trace first.2
    = [ExecFile "php" ["-n"; "-r"; php_script "Europe/Paris"];
       LogDebug LOG_PREFIX "getOffset" "Europe/Paris" {| offset := NaN; time := 1000 |}]
  ∧ second = (NaN, first.2).
Proof. vm_compute. repeat split; reflexivity. Qed.

(** One call changes the cache at its own zone only, and adds that zone
    exactly when the entry had expired and the refresh succeeded. *)
Lemma getOffset_cache_step (host : Host) (this : UFTimezone) (zone : string) :
  (¬ fresh host (entry this zone) ∧ succeeded (refresh host this zone)
   ∧ ∃ o, m_cache (getOffset zone host this).2 = <[zone := o]> (m_cache this))
  ∨ ((fresh host (entry this zone) ∨ failed (refresh host this zone))
     ∧ m_cache (getOffset zone host this).2 = m_cache this).
Proof.
  destruct (fresh_dec host (entry this zone)) as [Hf|Hf].
  - right. split; [by left|]. by rewrite getOffset_fresh.
  - destruct (outcome_cases (refresh host this zone)) as [F|[stdout S]].
    + right. split; [by right|].
      by destruct (getOffset_failed host this zone Hf F) as (e & -> & _).
    + left. split; [done|]. split; [by exists stdout|].
      rewrite (getOffset_resolved host this zone stdout Hf S). simpl. eauto.
Qed.

Lemma getOffset_calls_dom_mono (calls : list (Host * string)) (this : UFTimezone) :
  dom (m_cache this) ⊆ dom (m_cache (getOffset_calls calls this)).
Proof.
  revert this. induction calls as [|[host zone] calls IH]; intros this; simpl.
  - done.
  - etrans; [|apply IH].
    destruct (getOffset_cache_step host this zone) as [(_ & _ & o & ->)|[_ ->]].
    + rewrite dom_insert_L. set_solver.
    + done.
Qed.

Lemma getOffset_calls_dom_queried (calls : list (Host * string)) (this : UFTimezone) :
  dom (m_cache (getOffset_calls calls this))
  ⊆ dom (m_cache this) ∪ list_to_set (calls.*2).
Proof.
  revert this. induction calls as [|[host zone] calls IH]; intros this; simpl.
  - set_solver.
  - etrans; [apply IH|].
    destruct (getOffset_cache_step host this zone) as [(_ & _ & o & ->)|[_ ->]].
    + rewrite dom_insert_L. set_solver.
    + set_solver.
Qed.

(** C3, as the code has it. The cache is empty at construction; no run of
    [getOffset] calls removes a key; the keys are among the zones that
    were passed to [getOffset]; and a call adds the entry of an unseen
    zone exactly when the refresh is attempted and succeeds, leaving all
    other zones as they were. *)
Theorem cache_grows_on_successful_refresh :
  (∀ php, m_cache (new_UFTimezone php) = ∅)
  ∧ (∀ calls this,
       dom (m_cache this) ⊆ dom (m_cache (getOffset_calls calls this)))
  ∧ (∀ calls php,
       dom (m_cache (getOffset_calls calls (new_UFTimezone php)))
       ⊆ list_to_set (calls.*2))
  ∧ (∀ host this zone,
       m_cache this !! zone = None ->
       (zone ∈ dom (m_cache (getOffset zone host this).2)
        ↔ ¬ fresh host new_Offset ∧ succeeded (refresh host this zone)))
  ∧ (∀ host this zone other,
       other ≠ zone ->
       m_cache (getOffset zone host this).2 !! other = m_cache this !! other).
Proof.
  split; [done|].
  split; [intros; apply getOffset_calls_dom_mono|].
  split.
  { intros calls php. etrans; [apply getOffset_calls_dom_queried|].
    simpl. rewrite dom_empty_L. set_solver. }
  split.
  - intros host this zone Hnone.
    assert (entry this zone = new_Offset) as He by (unfold entry; by rewrite Hnone).
    destruct (getOffset_cache_step host this zone)
      as [(Hf & S & o & ->)|[Hor ->]]; rewrite He in *.
    + rewrite dom_insert_L. split; [done|set_solver].
    + split.
      * intros Hin. apply elem_of_dom in Hin. rewrite Hnone in Hin.
        by destruct Hin.
      * intros [Hf S]. destruct Hor as [?|F]; [done|].
        by apply failed_not_succeeded in F.
  - intros host this zone other Hne.
    destruct (getOffset_cache_step host this zone) as [(_ & _ & o & ->)|[_ ->]].
    + by rewrite lookup_insert_ne.
    + done.
Qed.

(** A first lookup that the interpreter answers creates the entry. *)
Lemma cache_grows_on_successful_refresh_witness :
  "Europe/Paris" ∈ dom (m_cache (getOffset "Europe/Paris" (host_answering 1000 "7200")
                                   (new_UFTimezone "php")).2).
Proof.
  destruct cache_grows_on_successful_refresh as (_ & _ & _ & H & _).
  apply (H (host_answering 1000 "7200") (new_UFTimezone "php") "Europe/Paris").
  - reflexivity.
  - split.
    + unfold fresh. vm_compute. intros E. discriminate E.
    + exists "7200". reflexivity.
Defined.

(** C3, as the spec states it, fails: a lookup whose refresh fails leaves
    no entry for the zone that was asked for. *)
Lemma failed_lookup_creates_no_entry :
  m_cache (getOffset "Europe/London" (host_rejecting 1000) (new_UFTimezone "php")).2 = ∅
  ∧ m_cache (getOffset_calls [(host_rejecting 1000, "Europe/London")]
               (new_UFTimezone "php")) !! "Europe/London" = None.
Proof. split; vm_compute; reflexivity. Qed.

(** C4. While [now - capturedAt < 1 hour] holds for the cached entry of a
    zone, [getOffset] returns the cached offset and leaves the instance,
    its trace of collaborator calls included, as it was: no interpreter
    is started. *)
Theorem getOffset_fresh_entry_no_exec (host : Host) (this : UFTimezone)
    (zone : string) (o : Offset) :
  m_cache this !! zone = Some o ->
  UFSystem_time host - time o < 60 * 60 * 1000 ->
  getOffset zone host this = (offset o, this)
  ∧ trace (getOffset zone host this).2 = trace this.
Proof.
  intros Hc Hf.
  assert (entry this zone = o) as He by (unfold entry; by rewrite Hc).
  rewrite getOffset_fresh; rewrite He; [done|exact Hf].
Qed.

(** An entry stored at 1000 is still served at 3600999, whatever the
    interpreter would do. *)
Lemma getOffset_fresh_entry_no_exec_witness :
  getOffset "Europe/Paris" (host_rejecting 3600999) instance_with_Paris
  = (Num 7200, instance_with_Paris)
  ∧ trace (getOffset "Europe/Paris" (host_rejecting 3600999) instance_with_Paris).2
    = trace instance_with_Paris.
Proof.
  apply (getOffset_fresh_entry_no_exec (host_rejecting 3600999) instance_with_Paris
           "Europe/Paris" {| offset := Num 7200; time := 1000 |}).
  - vm_compute. reflexivity.
  - simpl. lia.
Defined.

(** C5, as the code has it. A new entry has offset 0 and capture time
    minus the cache life, whatever the clock reads; so for a zone that is
    not in the cache and a clock that reads 0 or more, the entry is not
    fresh and [getOffset] starts the interpreter. *)
Theorem new_Offset_expired (host : Host) (this : UFTimezone) (zone : string) :
  m_cache this !! zone = None ->
  0 ≤ UFSystem_time host ->
  offset new_Offset = Num 0
  ∧ time new_Offset = - (60 * 60 * 1000)
  ∧ entry this zone = new_Offset
  ∧ ¬ (UFSystem_time host - time new_Offset < CACHE_LIFE)
  ∧ ∃ e, trace (getOffset zone host this).2
         = (trace this
            ++ [ExecFile (m_php this) ["-n"; "-r"; php_script zone]; e])%list.
Proof.
  intros Hnone Hnow.
  assert (entry this zone = new_Offset) as He by (unfold entry; by rewrite Hnone).
  assert (¬ fresh host (entry this zone)) as Hf.
  { rewrite He. unfold fresh, new_Offset, CACHE_LIFE. simpl. lia. }
  repeat split; [done|by rewrite <- He|].
  destruct (outcome_cases (refresh host this zone)) as [F|[stdout S]].
  - destruct (getOffset_failed host this zone Hf F) as (e & -> & _). by exists e.
  - rewrite (getOffset_resolved host this zone stdout Hf S). simpl. eauto.
Qed.

(** The first lookup on a new instance starts the interpreter. *)
Lemma new_Offset_expired_witness :
  ∃ e, trace (getOffset "Europe/Paris" (host_answering 1000 "7200")
                (new_UFTimezone "php")).2
       = (trace (new_UFTimezone "php")
          ++ [ExecFile "php" ["-n"; "-r"; php_script "Europe/Paris"]; e])%list.
Proof.
  apply (new_Offset_expired (host_answering 1000 "7200") (new_UFTimezone "php")
           "Europe/Paris"); [reflexivity|simpl; lia].
Defined.

(** C5, as the spec states it, fails: at clock reading 1000 the capture
    time of the entry made for an unseen zone is -3600000, which is not
    1000 minus the cache life; and at a clock reading below 0 such an
    entry passes the freshness test, so 0 is returned and no interpreter
    is started. *)
Lemma new_Offset_time_not_now_minus_life :
  entry (new_UFTimezone "php") "Europe/Paris" = new_Offset
  ∧ time (entry (new_UFTimezone "php") "Europe/Paris") = -3600000
  ∧ time (entry (new_UFTimezone "php") "Europe/Paris")
    ≠ UFSystem_time (host_answering 1000 "7200") - CACHE_LIFE
  ∧ getOffset "Europe/Paris" (host_answering (-1) "7200") (new_UFTimezone "php")
    = (Num 0, new_UFTimezone "php").
Proof.
  repeat split; try (vm_compute; reflexivity).
  vm_compute. intros H. discriminate H.
Qed.

(** C10. When the refresh is attempted and fails (the promise rejects, or
    stderr is not empty) the cache after [getOffset] is the cache before
    it: an unseen zone stays absent, an expired entry keeps both fields. *)
Theorem getOffset_failure_keeps_cache (host : Host) (this : UFTimezone) (zone : string) :
  ¬ fresh host (entry this zone) ->
  failed (refresh host this zone) ->
  m_cache (getOffset zone host this).2 = m_cache this
  ∧ (m_cache this !! zone = None ->
     m_cache (getOffset zone host this).2 !! zone = None)
  ∧ (∀ o, m_cache this !! zone = Some o ->
          m_cache (getOffset zone host this).2 !! zone = Some o).
Proof.
  intros Hf F. destruct (getOffset_failed host this zone Hf F) as (e & -> & _).
  simpl. by repeat split.
Qed.

(** With an expired entry for "Europe/Paris" and no interpreter, neither
    a lookup of that zone nor one of an unseen zone changes the cache. *)
Lemma getOffset_failure_keeps_cache_witness :
  m_cache (getOffset "Europe/Paris" (host_rejecting 9000000) instance_with_Paris).2
  = m_cache instance_with_Paris
  ∧ m_cache (getOffset "Europe/London" (host_rejecting 9000000) instance_with_Paris).2
      !! "Europe/London" = None.
Proof.
  split.
  - apply (getOffset_failure_keeps_cache (host_rejecting 9000000) instance_with_Paris
             "Europe/Paris").
    + unfold fresh. vm_compute. intros H. discriminate H.
    + exact I.
  - apply (getOffset_failure_keeps_cache (host_rejecting 9000000) instance_with_Paris
             "Europe/London").
    + unfold fresh. vm_compute. intros H. discriminate H.
    + exact I.
    + vm_compute. reflexivity.
Defined.

(** ** Dates *)

Lemma getLocalFromServerDate_eq (host : Host) (this : UFTimezone) (d : Date)
    (zone : string) :
  getLocalFromServerDate d zone host this =
  (new_Date
     (add (add (getTime d)
             (mul (Num 60000) (on_time_value (getTimezoneOffset host) d)))
        (mul (Num 1000) (getOffset zone host this).1)),
   (getOffset zone host this).2).
Proof.
  unfold getLocalFromServerDate, Date_getTimezoneOffset, mbind, M_bind, ask; simpl.
  by destruct (getOffset zone host this).
Qed.

Lemma getServerFromLocalDate_eq (host : Host) (this : UFTimezone) (d : Date)
    (zone : string) :
  getServerFromLocalDate d zone host this =
  (new_Date
     (sub (sub (getTime d) (mul (Num 1000) (getOffset zone host this).1))
        (mul (Num 60000) (on_time_value (getTimezoneOffset host) d))),
   (getOffset zone host this).2).
Proof.
  unfold getServerFromLocalDate, Date_getTimezoneOffset, mbind, M_bind, ask; simpl.
  by destruct (getOffset zone host this).
Qed.

Lemma TimeClip_Num (v : number) (t : Z) : TimeClip v = Num t -> v = Num t.
Proof.
  destruct v as [z|]; simpl; [|done].
  by destruct (8640000000000000 <? Z.abs z).
Qed.

Lemma TimeClip_in_range (t : Z) :
  Z.abs t ≤ 8640000000000000 -> TimeClip (Num t) = Num t.
Proof.
  intros H. simpl. destruct (Z.ltb_spec 8640000000000000 (Z.abs t)); [lia|done].
Qed.

(** C6, as the code has it. A server date converted to the local time of
    a zone and back, with the same offset of the zone in both calls, is
    the original date, provided the local date is a valid date and the
    server's own timezone offset read at the local date is the one read
    at the server date. *)
Theorem server_local_server_roundtrip (host1 host2 : Host) (this : UFTimezone)
    (zone : string) (t k lt : Z) :
  let d := {| getTime := Num t |} in
  let local := getLocalFromServerDate d zone host1 this in
  let back := getServerFromLocalDate local.1 zone host2 local.2 in
  Z.abs t ≤ 8640000000000000 ->
  (getOffset zone host1 this).1 = Num k ->
  (getOffset zone host2 local.2).1 = Num k ->
  getTime local.1 = Num lt ->
  getTimezoneOffset host2 lt = getTimezoneOffset host1 t ->
  back.1 = d.
Proof.
  intros d local back Ht Hk1 Hk2 Hlt Htz. subst back.
  rewrite getServerFromLocalDate_eq. simpl. rewrite Hk2.
  unfold on_time_value. rewrite Hlt.
  subst local. rewrite getLocalFromServerDate_eq in Hlt. simpl in Hlt.
  rewrite Hk1 in Hlt. apply TimeClip_Num in Hlt. simpl in Hlt.
  injection Hlt as Hlt. unfold new_Date, d. f_equal. simpl sub.
  rewrite Htz.
  replace (lt - 1000 * k - 60000 * getTimezoneOffset host1 t) with t by lia.
  by apply TimeClip_in_range.
Qed.

(** On Amsterdam time, a day before summer time starts, midnight UTC goes
    to Tokyo time and back unchanged. *)
Lemma server_local_server_roundtrip_witness :
  (getServerFromLocalDate
     (getLocalFromServerDate {| getTime := Num 1616803200000 |} "Asia/Tokyo"
        (host_Amsterdam 1000) (new_UFTimezone "php")).1
     "Asia/Tokyo" (host_Amsterdam 2000)
     (getLocalFromServerDate {| getTime := Num 1616803200000 |} "Asia/Tokyo"
        (host_Amsterdam 1000) (new_UFTimezone "php")).2).1
  = {| getTime := Num 1616803200000 |}.
Proof.
  apply (server_local_server_roundtrip (host_Amsterdam 1000) (host_Amsterdam 2000)
           (new_UFTimezone "php") "Asia/Tokyo" 1616803200000 32400 1616832000000).
  - simpl. lia.
  - vm_compute. reflexivity.
  - vm_compute. reflexivity.
  - vm_compute. reflexivity.
  - vm_compute. reflexivity.
Defined.

(** C6, as the spec states it, fails on a server whose own timezone offset
    changes between the two dates: on Amsterdam time, 2021-03-27 23:30 UTC
    converted to Tokyo time and back, the second call answered from the
    cache, comes out one hour later. *)
Lemma roundtrip_across_summer_time_start :
  let d := {| getTime := Num 1616887800000 |} in
  let local := getLocalFromServerDate d "Asia/Tokyo" (host_Amsterdam 1000)
                 (new_UFTimezone "php") in
  let back := getServerFromLocalDate local.1 "Asia/Tokyo" (host_Amsterdam 2000)
                local.2 in
  (getOffset "Asia/Tokyo" (host_Amsterdam 1000) (new_UFTimezone "php")).1 = Num 32400
  ∧ getOffset "Asia/Tokyo" (host_Amsterdam 2000) local.2 = (Num 32400, local.2)
  ∧ back.1 = {| getTime := Num 1616891400000 |}
  ∧ back.1 ≠ d.
Proof.
  repeat split; try (vm_compute; reflexivity).
  vm_compute. intros H. discriminate H.
Qed.

(** ** The formatted local time *)

Lemma forallb_below (f : Z -> bool) (bound : nat) :
  forallb f (map Z.of_nat (seq 0 bound)) = true ->
  ∀ n, 0 ≤ n < Z.of_nat bound -> f n = true.
Proof.
  intros H n Hn. rewrite forallb_forall in H. apply H.
  apply in_map_iff. exists (Z.to_nat n). split; [lia|].
  apply in_seq. lia.
Qed.

(** The helper writes every number from 0 to 99 with two digits. *)
Lemma twoDigits_two_digits (n : Z) :
  0 ≤ n < 100 -> twoDigits (Num n) = two_digits n.
Proof.
  intros Hn. apply String.eqb_eq.
  apply (forallb_below (fun n => String.eqb (twoDigits (Num n)) (two_digits n)) 100);
    [vm_compute; reflexivity|lia].
Qed.







(** ** The configuration reader *)

Section ParsePhpConfig.
Import JSON UFPhp.

Variables (fs : FileSystem) (path : string) (console : list Error).

(** What the [try] block returns is returned, and nothing is printed. *)
Lemma parsePhpConfig_normal (v : json) (console' : list Error) :
  parsePhpConfig_try path fs console = (Normal v, console') ->
  parsePhpConfig path fs console = (Normal v, console').
Proof. intros H. unfold parsePhpConfig, try_catch. by rewrite H. Qed.

(** What the [try] block throws is printed, and [false] is returned. *)
Lemma parsePhpConfig_caught (e : Error) (console' : list Error) :
  parsePhpConfig_try path fs console = (Throw e, console') ->
  parsePhpConfig path fs console = (Normal (JBool false), (console' ++ [e])%list).
Proof. intros H. unfold parsePhpConfig, try_catch. by rewrite H. Qed.

Lemma try_access_rejected (e : Error) :
  access fs path = RejectedWith e ->
  parsePhpConfig_try path fs console = (Throw e, console).
Proof.
  intros H. unfold parsePhpConfig_try, mbind, X_bind, await. by rewrite H.
Qed.

Lemma try_readFile_rejected (e : Error) :
  access fs path = Fulfilled tt ->
  readFile fs path = RejectedWith e ->
  parsePhpConfig_try path fs console = (Throw e, console).
Proof.
  intros Ha Hr. unfold parsePhpConfig_try, mbind, X_bind, await.
  by rewrite Ha, Hr.
Qed.

(** The [try] block prints nothing itself, and throws a SyntaxError when
    it got as far as [JSON.parse]. *)
Lemma try_readFile_fulfilled (text : string) :
  access fs path = Fulfilled tt ->
  readFile fs path = Fulfilled text ->
  (∃ v, parsePhpConfig_try path fs console = (Normal v, console))
  ∨ parsePhpConfig_try path fs console = (Throw SyntaxError, console).
Proof.
  intros Ha Hr. unfold parsePhpConfig_try, mbind, X_bind, await.
  rewrite Ha, Hr. cbv beta iota zeta. unfold JSON_parse.
  destruct (parse _) as [v|]; [left; by exists v|by right].
Qed.

End ParsePhpConfig.

(** C7. For a readable file whose text is [<?php], [return []], the lines
    ['a' => 1,], ['b' => 'x',] and ['c' => true,], and [];], the reader
    returns the object with [a] = 1, [b] = "x" and [c] = true, which is
    the value of the JSON document [{"a": 1, "b": "x", "c": true}], and
    prints nothing. *)
Theorem parsePhpConfig_abc (fs : UFPhp.FileSystem) (path : string)
    (console : list UFPhp.Error) :
  UFPhp.access fs path = UFPhp.Fulfilled tt ->
  UFPhp.readFile fs path = UFPhp.Fulfilled config_abc ->
  UFPhp.parsePhpConfig path fs console = (UFPhp.Normal value_abc, console)
  ∧ JSON.parse json_abc = Some value_abc.
Proof.
  intros Ha Hr. split; [|vm_compute; reflexivity].
  apply parsePhpConfig_normal.
  unfold UFPhp.parsePhpConfig_try, mbind, UFPhp.X_bind, UFPhp.await.
  rewrite Ha, Hr. cbv beta iota zeta.
  unfold UFPhp.JSON_parse.
  match goal with
  | |- context [JSON.parse ?text] =>
      replace (JSON.parse text) with (Some value_abc) by (vm_compute; reflexivity)
  end.
  reflexivity.
Qed.

(** The file on a file system where it is readable. *)
Lemma parsePhpConfig_abc_witness :
  UFPhp.parsePhpConfig "config.php" (fs_with config_abc) []
  = (UFPhp.Normal value_abc, [])
  ∧ JSON.parse json_abc = Some value_abc.
Proof.
  apply (parsePhpConfig_abc (fs_with config_abc) "config.php" []); reflexivity.
Defined.

(** C8. [parsePhpConfig] completes normally for every path, file system
    and console: whatever its [try] block throws is printed with
    [console.error] and [false] is returned. That covers a file that
    cannot be accessed, a file that cannot be read, and a text that
    [JSON.parse] rejects after the rewriting. *)
Theorem parsePhpConfig_never_throws (fs : UFPhp.FileSystem) (path : string)
    (console : list UFPhp.Error) :
  (∃ v console', UFPhp.parsePhpConfig path fs console = (UFPhp.Normal v, console'))
  ∧ (∀ e console',
       UFPhp.parsePhpConfig_try path fs console = (UFPhp.Throw e, console') ->
       UFPhp.parsePhpConfig path fs console
       = (UFPhp.Normal (JSON.JBool false), (console' ++ [e])%list))
  ∧ (∀ e,
       UFPhp.access fs path = UFPhp.RejectedWith e ->
       UFPhp.parsePhpConfig path fs console
       = (UFPhp.Normal (JSON.JBool false), (console ++ [e])%list))
  ∧ (∀ e,
       UFPhp.access fs path = UFPhp.Fulfilled tt ->
       UFPhp.readFile fs path = UFPhp.RejectedWith e ->
       UFPhp.parsePhpConfig path fs console
       = (UFPhp.Normal (JSON.JBool false), (console ++ [e])%list))
  ∧ (∀ text,
       UFPhp.access fs path = UFPhp.Fulfilled tt ->
       UFPhp.readFile fs path = UFPhp.Fulfilled text ->
       (∃ v, UFPhp.parsePhpConfig path fs console = (UFPhp.Normal v, console))
       ∨ UFPhp.parsePhpConfig path fs console
         = (UFPhp.Normal (JSON.JBool false),
            (console ++ [UFPhp.SyntaxError])%list)).
Proof.
  split.
  { destruct (UFPhp.parsePhpConfig_try path fs console) as [[v|e] console'] eqn:E.
    - exists v, console'. by apply parsePhpConfig_normal.
    - exists (JSON.JBool false), (console' ++ [e])%list.
      by apply parsePhpConfig_caught. }
  split; [intros e console'; apply parsePhpConfig_caught|].
  split.
  { intros e Ha. by apply parsePhpConfig_caught, try_access_rejected. }
  split.
  { intros e Ha Hr. by apply parsePhpConfig_caught, try_readFile_rejected. }
  intros text Ha Hr.
  destruct (try_readFile_fulfilled fs path console text Ha Hr) as [[v Hv]|Ht].
  - left. exists v. by apply parsePhpConfig_normal.
  - right. by apply parsePhpConfig_caught.
Qed.

(** A missing file, an unreadable one, and a text that is not JSON after
    the rewriting: [false] each time, and the error on the console. *)
Lemma parsePhpConfig_never_throws_witness :
  UFPhp.parsePhpConfig "missing.php" fs_empty []
  = (UFPhp.Normal (JSON.JBool false), [UFPhp.FsError "ENOENT"])
  ∧ UFPhp.parsePhpConfig "directory" fs_unreadable []
    = (UFPhp.Normal (JSON.JBool false), [UFPhp.FsError "EISDIR"])
  ∧ UFPhp.parsePhpConfig "text.php" (fs_with "<?php return [1, 2;") []
    = (UFPhp.Normal (JSON.JBool false), [UFPhp.SyntaxError]).
Proof.
  split; [|split].
  - apply (proj1 (proj2 (proj2 (parsePhpConfig_never_throws
                                  fs_empty "missing.php" [])))).
    reflexivity.
  - apply (proj1 (proj2 (proj2 (proj2 (parsePhpConfig_never_throws
                                         fs_unreadable "directory" []))))).
    + reflexivity.
    + reflexivity.
  - apply (proj1 (proj2 (parsePhpConfig_never_throws
                           (fs_with "<?php return [1, 2;") "text.php" []))
             UFPhp.SyntaxError []).
    vm_compute. reflexivity.
Defined.

(** ** Further properties of the offset cache *)

Lemma digit_cases (d : Z) :
  0 ≤ d < 10 ->
  d = 0 ∨ d = 1 ∨ d = 2 ∨ d = 3 ∨ d = 4 ∨ d = 5 ∨ d = 6 ∨ d = 7 ∨ d = 8 ∨ d = 9.
Proof. lia. Qed.

Ltac each_digit H :=
  apply digit_cases in H;
  repeat (destruct H as [H|H]; [subst; vm_compute; try reflexivity; try done|]);
  subst; vm_compute; try reflexivity; try done.

Lemma digit_char_value (d : Z) :
  0 ≤ d < 10 -> digitValue 10 (ascii_of_nat (48 + Z.to_nat d)) = Some d.
Proof. intros H. each_digit H. Qed.

Lemma digit_char_not_space (d : Z) :
  0 ≤ d < 10 -> isWhiteSpace (ascii_of_nat (48 + Z.to_nat d)) = false.
Proof. intros H. each_digit H. Qed.

(** Reading digits folds them into the value. *)
Lemma parseDigits_render (ds : list Z) (rest : string) (a : Z) :
  Forall (fun d => 0 ≤ d < 10) ds ->
  parseDigits 10 (Some a) (render ds rest)
  = parseDigits 10 (Some (decimal_value a ds)) rest.
Proof.
  intros H. revert a. induction H as [|d ds Hd _ IH]; intros a.
  - reflexivity.
  - cbn [render parseDigits]. rewrite digit_char_value by done.
    cbn [default from_option id]. apply IH.
Qed.

Lemma parseDigits_ends (rest : string) (a : Z) :
  ends_number rest -> parseDigits 10 (Some a) rest = Some a.
Proof.
  destruct rest as [|c rest]; [done|]. cbn [ends_number parseDigits]. intros H.
  assert (digitValue 10 c = None) as ->; [|done].
  unfold isWhiteSpace in H. unfold digitValue.
  destruct c as [[] [] [] [] [] [] [] []]; vm_compute in H |- *; congruence.
Qed.

(** [parseInt] of rendered digits, whatever ends the number. *)
Lemma parseInt_render (d : Z) (ds : list Z) (rest : string) :
  Forall (fun d => 0 ≤ d < 10) (d :: ds) ->
  ends_number rest ->
  parseInt (render (d :: ds) rest)
  = Num (round_double (decimal_value 0 (d :: ds)))
  ∧ parseInt (String "-" (render (d :: ds) rest))
    = Num (round_double (- decimal_value 0 (d :: ds))).
Proof.
  intros H E. pose proof H as H'. apply Forall_cons in H' as [Hd Hds].
  assert (parseDigits 10 None (render (d :: ds) rest)
          = Some (decimal_value 0 (d :: ds))) as Hp.
  { cbn [render parseDigits]. rewrite digit_char_value by done.
    cbn [default from_option id]. change (0 * 10 + d) with (decimal_value 0 [d]).
    rewrite parseDigits_render by done.
    change (decimal_value (decimal_value 0 [d]) ds) with (decimal_value 0 (d :: ds)).
    by apply parseDigits_ends. }
  assert (match render (d :: ds) rest with
          | String "0" (String "x" r) => (16, r)
          | String "0" (String "X" r) => (16, r)
          | _ => (10, render (d :: ds) rest)
          end = (10, render (d :: ds) rest)) as Hx.
  { clear Hp H. apply digit_cases in Hd.
    destruct Hd as [->|Hd].
    - change (render (0 :: ds) rest) with (String "0" (render ds rest)).
      destruct ds as [|d' ds]; simpl render.
      + destruct rest as [|c rest]; [reflexivity|].
        simpl in E. unfold isWhiteSpace in E.
        destruct c as [[] [] [] [] [] [] [] []]; try reflexivity;
          vm_compute in E; discriminate E.
      + apply Forall_cons in Hds as [Hd' _]. apply digit_cases in Hd'.
        repeat (destruct Hd' as [->|Hd']; [reflexivity|]). by subst.
    - repeat (destruct Hd as [->|Hd]; [reflexivity|]). by subst. }
  split.
  - unfold parseInt.
    assert (trimStart (render (d :: ds) rest) = render (d :: ds) rest) as ->.
    { cbn [render trimStart]. by rewrite digit_char_not_space. }
    assert (match render (d :: ds) rest with
            | String "-" r => (-1, r)
            | String "+" r => (1, r)
            | _ => (1, render (d :: ds) rest)
            end = (1, render (d :: ds) rest)) as ->.
    { cbn [render]. clear -Hd. apply digit_cases in Hd.
      repeat (destruct Hd as [->|Hd]; [reflexivity|]). by subst. }
    rewrite Hx, Hp. do 2 f_equal; lia.
  - unfold parseInt. cbn [trimStart]. change (isWhiteSpace "-") with false.
    cbv iota. rewrite Hx, Hp. do 2 f_equal; lia.
Qed.

Lemma render_app (ds1 ds2 : list Z) (rest : string) :
  render (ds1 ++ ds2) rest = render ds1 (render ds2 rest).
Proof. induction ds1 as [|d ds1 IH]; [done|]. cbn [app render]. by rewrite IH. Qed.

Lemma render_append (ds : list Z) (s rest : string) :
  render ds s +:+ rest = render ds (s +:+ rest).
Proof. induction ds as [|d ds IH]; [done|]. cbn [render]. by rewrite <- IH. Qed.

Lemma decimal_value_app (a : Z) (ds1 ds2 : list Z) :
  decimal_value a (ds1 ++ ds2) = decimal_value (decimal_value a ds1) ds2.
Proof. unfold decimal_value. apply fold_left_app. Qed.

(** The digits written for [n] are decimal digits with value [n]. *)
Lemma digits_fuel_render (fuel : nat) :
  ∀ n acc, 0 ≤ n < 2 ^ Z.of_nat (S fuel) ->
  ∃ d ds, Forall (fun d => 0 ≤ d < 10) (d :: ds)
          ∧ digits_fuel (S fuel) n acc = render (d :: ds) acc
          ∧ decimal_value 0 (d :: ds) = n.
Proof.
  induction fuel as [|fuel IH]; intros n acc Hn.
  - exists n, []. cbn [digits_fuel]. change (2 ^ Z.of_nat 1) with 2 in Hn.
    destruct (Z.ltb_spec n 10); [|lia].
    rewrite Z.mod_small by lia.
    split; [constructor; [lia|constructor]|].
    split; [reflexivity|]. unfold decimal_value; simpl; lia.
  - rewrite Nat2Z.inj_succ, Z.pow_succ_r in Hn by lia.
    remember (S fuel) as f eqn:Hf. cbn [digits_fuel].
    destruct (Z.ltb_spec n 10) as [Hlt|Hge].
    + exists n, []. rewrite Z.mod_small by lia.
      split; [constructor; [lia|constructor]|].
      split; [reflexivity|]. unfold decimal_value; simpl; lia.
    + subst f.
      destruct (IH (n / 10)
                  (String (ascii_of_nat (48 + Z.to_nat (n mod 10))) acc))
        as (d & ds & Hall & Hr & Hv).
      { split; [apply Z.div_pos; lia|].
        apply Z.div_lt_upper_bound; lia. }
      exists d, (ds ++ [n mod 10])%list. split; [|split].
      * change (d :: ds ++ [n mod 10])%list with ((d :: ds) ++ [n mod 10])%list.
        apply Forall_app. split; [done|].
        constructor; [apply Z.mod_pos_bound; lia|constructor].
      * rewrite Hr. change (d :: ds ++ [n mod 10])%list with ((d :: ds) ++ [n mod 10])%list.
        by rewrite render_app.
      * change (d :: ds ++ [n mod 10])%list with ((d :: ds) ++ [n mod 10])%list.
        rewrite decimal_value_app, Hv. unfold decimal_value. simpl.
        pose proof (Z.div_mod n 10). lia.
Qed.

Lemma digits_render (n : Z) :
  0 ≤ n ->
  ∃ d ds, Forall (fun d => 0 ≤ d < 10) (d :: ds)
          ∧ digits n = render (d :: ds) EmptyString
          ∧ decimal_value 0 (d :: ds) = n.
Proof.
  intros Hn. unfold digits. apply digits_fuel_render.
  split; [done|]. rewrite Nat2Z.inj_succ, Z2Nat.id by apply Z.log2_nonneg.
  destruct (Z.eq_dec n 0) as [->|Hne]; [done|].
  apply Z.log2_spec. lia.
Qed.

(** An integer that fits the 53 bits of a significand is a double. *)
Lemma round_double_safe (z : Z) :
  Z.abs z ≤ 9007199254740991 -> round_double z = z.
Proof.
  intros Hz. unfold round_double.
  destruct (Z.leb_spec (Z.log2 (Z.abs z) + 1) 53) as [_|Hbits]; [done|].
  destruct (Z.eq_dec (Z.abs z) 0) as [H0|H0].
  - rewrite H0 in Hbits. change (Z.log2 0) with 0 in Hbits. lia.
  - assert (Z.log2 (Z.abs z) < 53); [|lia].
    apply Z.log2_lt_pow2; lia.
Qed.

(** [parseInt] reads back what [toString] writes for an integer within
    the range of the safe integers, also when white space follows. *)
Lemma parseInt_toString (z : Z) (rest : string) :
  Z.abs z ≤ 9007199254740991 ->
  ends_number rest -> parseInt (toString (Num z) +:+ rest) = Num z.
Proof.
  intros Hz E. unfold toString. destruct (Z.ltb_spec z 0) as [Hneg|Hpos].
  - destruct (digits_render (- z)) as (d & ds & Hall & -> & Hv); [lia|].
    change ((String "-" EmptyString +:+ render (d :: ds) EmptyString) +:+ rest)
      with (String "-" (render (d :: ds) EmptyString +:+ rest)).
    rewrite render_append. change (EmptyString +:+ rest) with rest.
    rewrite (proj2 (parseInt_render d ds rest Hall E)), Hv.
    replace (- - z) with z by lia. by rewrite round_double_safe.
  - destruct (digits_render z) as (d & ds & Hall & -> & Hv); [lia|].
    rewrite render_append. change (EmptyString +:+ rest) with rest.
    rewrite (proj1 (parseInt_render d ds rest Hall E)), Hv.
    by rewrite round_double_safe.
Qed.

(** X1. An expired entry, and an interpreter that prints the decimal
    digits of an integer [n] of at most 2^53 - 1 in absolute value on
    stdout (possibly followed by white space) and nothing on stderr:
    [getOffset] returns [n], stores it with the clock reading of the
    call, and logs the stored entry at debug level. *)
Theorem getOffset_reads_printed_integer (host : Host) (this : UFTimezone)
    (zone : string) (n : Z) (rest : string) :
  Z.abs n ≤ 9007199254740991 ->
  ¬ fresh host (entry this zone) ->
  refresh host this zone = Resolved (toString (Num n) +:+ rest) EmptyString ->
  ends_number rest ->
  (getOffset zone host this).1 = Num n
  ∧ m_cache (getOffset zone host this).2
    = <[zone := {| offset := Num n; time := UFSystem_time host |}]> (m_cache this)
  ∧ trace (getOffset zone host this).2
    = (trace this
       ++ [ExecFile (m_php this) ["-n"; "-r"; php_script zone];
           LogDebug LOG_PREFIX "getOffset" zone
             {| offset := Num n; time := UFSystem_time host |}])%list.
Proof.
  intros Hn Hf R E.
  rewrite (getOffset_resolved host this zone _ Hf R).
  rewrite (parseInt_toString n rest Hn E). by repeat split.
Qed.

(** The interpreter prints [-18000] and a line feed for "America/Chicago". *)
Lemma getOffset_reads_printed_integer_witness :
  (getOffset "America/Chicago"
     (host_answering 1000 (toString (Num (-18000)) +:+ String "010" EmptyString))
     (new_UFTimezone "php")).1 = Num (-18000).
Proof.
  apply (getOffset_reads_printed_integer
           (host_answering 1000 (toString (Num (-18000)) +:+ String "010" EmptyString))
           (new_UFTimezone "php") "America/Chicago" (-18000)
           (String "010" EmptyString)).
  - simpl. lia.
  - unfold fresh. vm_compute. intros H. discriminate H.
  - reflexivity.
  - reflexivity.
Defined.

Lemma count_exec_app (l1 l2 : list Event) :
  count_exec (l1 ++ l2) = (count_exec l1 + count_exec l2)%nat.
Proof.
  induction l1 as [|e l1 IH]; [done|].
  destruct e; cbn [app count_exec]; by rewrite IH.
Qed.

(** What a call appends to the trace: nothing for a fresh entry, one
    interpreter run and one log call for an expired one. *)
Lemma getOffset_trace (host : Host) (this : UFTimezone) (zone : string) :
  (fresh host (entry this zone) ∧ (getOffset zone host this).2 = this)
  ∨ (¬ fresh host (entry this zone)
     ∧ m_php (getOffset zone host this).2 = m_php this
     ∧ ∃ e, trace (getOffset zone host this).2
            = (trace this
               ++ [ExecFile (m_php this) ["-n"; "-r"; php_script zone]; e])%list
            ∧ count_exec [e] = O).
Proof.
  destruct (fresh_dec host (entry this zone)) as [Hf|Hf].
  - left. split; [done|]. by rewrite getOffset_fresh.
  - right. split; [done|].
    destruct (outcome_cases (refresh host this zone)) as [F|[stdout S]].
    + destruct (getOffset_failed host this zone Hf F)
        as (e & -> & error & details & ->).
      split; [done|]. eexists. split; [reflexivity|done].
    + rewrite (getOffset_resolved host this zone stdout Hf S).
      split; [done|]. eexists. split; [reflexivity|done].
Qed.

(** X2. After a refresh that succeeded, the stored value (what [parseInt]
    made of stdout) is returned by every lookup of the zone at which the
    clock reads less than 3600000 more than it read at the refresh, with
    the instance unchanged and no interpreter run; a lookup at which the
    clock reads 3600000 more or beyond runs the interpreter once more.
    The readings are those of [UFSystem.time()], in its own unit. *)
Theorem refreshed_offset_served_for_an_hour (host1 host2 : Host)
    (this : UFTimezone) (zone stdout : string) :
  let after := (getOffset zone host1 this).2 in
  ¬ fresh host1 (entry this zone) ->
  refresh host1 this zone = Resolved stdout EmptyString ->
  (UFSystem_time host2 - UFSystem_time host1 < 60 * 60 * 1000 ->
   getOffset zone host2 after = (parseInt stdout, after))
  ∧ (60 * 60 * 1000 ≤ UFSystem_time host2 - UFSystem_time host1 ->
     count_exec (trace (getOffset zone host2 after).2)
     = S (count_exec (trace after))).
Proof.
  intros after Hf R.
  assert (entry after zone
          = {| offset := parseInt stdout; time := UFSystem_time host1 |}) as He.
  { subst after. rewrite (getOffset_resolved host1 this zone stdout Hf R).
    unfold entry. simpl. by rewrite lookup_insert_eq. }
  split.
  - intros Hlt. rewrite getOffset_fresh; rewrite He; [done|].
    unfold fresh. simpl. exact Hlt.
  - intros Hge.
    destruct (getOffset_trace host2 after zone) as [[Hfresh _]|(_ & _ & e & -> & Hc)].
    + rewrite He in Hfresh. unfold fresh in Hfresh. simpl in Hfresh.
      unfold CACHE_LIFE in Hfresh. lia.
    + rewrite count_exec_app. cbn [count_exec] in Hc |- *. rewrite Hc. lia.
Qed.

(** "Europe/Paris" stored at 1000: served at 3600999, refreshed at 3601000. *)
Lemma refreshed_offset_served_for_an_hour_witness :
  getOffset "Europe/Paris" (host_rejecting 3600999) instance_with_Paris
  = (Num 7200, instance_with_Paris)
  ∧ count_exec (trace (getOffset "Europe/Paris" (host_answering 3601000 "3600")
                         instance_with_Paris).2)
    = S (count_exec (trace instance_with_Paris)).
Proof.
  split.
  - apply (refreshed_offset_served_for_an_hour (host_answering 1000 "7200")
             (host_rejecting 3600999) (new_UFTimezone "php") "Europe/Paris" "7200").
    + unfold fresh. vm_compute. intros H. discriminate H.
    + reflexivity.
    + simpl. lia.
  - apply (refreshed_offset_served_for_an_hour (host_answering 1000 "7200")
             (host_answering 3601000 "3600") (new_UFTimezone "php")
             "Europe/Paris" "7200").
    + unfold fresh. vm_compute. intros H. discriminate H.
    + reflexivity.
    + simpl. lia.
Defined.

(** X3. A call of [getOffset] never changes the interpreter path and only
    appends to the collaborator calls: nothing when the entry is fresh,
    and otherwise exactly one run of the interpreter, with the arguments
    [-n], [-r] and the script for the zone, followed by one log call. *)
Theorem getOffset_runs_interpreter_once_when_expired (host : Host)
    (this : UFTimezone) (zone : string) :
  m_php (getOffset zone host this).2 = m_php this
  ∧ ∃ events,
      trace (getOffset zone host this).2 = (trace this ++ events)%list
      ∧ (fresh host (entry this zone) -> events = [])
      ∧ (¬ fresh host (entry this zone) ->
         count_exec events = 1%nat
         ∧ ∃ e, events = [ExecFile (m_php this) ["-n"; "-r"; php_script zone]; e]).
Proof.
  destruct (getOffset_trace host this zone) as [[Hf ->]|(Hf & Hp & e & -> & Hc)].
  - split; [done|]. exists []. rewrite app_nil_r. by repeat split.
  - split; [done|]. eexists. split; [reflexivity|]. split; [done|].
    intros _. split; [|by exists e].
    cbn [count_exec] in Hc |- *. by rewrite Hc.
Qed.

(** An expired entry for "Europe/Paris" and an interpreter that answers. *)
Lemma getOffset_runs_interpreter_once_when_expired_witness :
  ∃ events,
    trace (getOffset "Europe/Paris" (host_answering 9000000 "3600")
             instance_with_Paris).2
    = (trace instance_with_Paris ++ events)%list
    ∧ (fresh (host_answering 9000000 "3600") (entry instance_with_Paris "Europe/Paris")
       -> events = [])
    ∧ (¬ fresh (host_answering 9000000 "3600")
           (entry instance_with_Paris "Europe/Paris") ->
       count_exec events = 1%nat
       ∧ ∃ e, events = [ExecFile (m_php instance_with_Paris)
                          ["-n"; "-r"; php_script "Europe/Paris"]; e]).
Proof.
  exact (proj2 (getOffset_runs_interpreter_once_when_expired
                  (host_answering 9000000 "3600") instance_with_Paris "Europe/Paris")).
Defined.

Lemma getOffset_keeps_numeric (host : Host) (this : UFTimezone) (zone : string) :
  numeric_cache (m_cache this) ->
  usable (refresh host this zone) ->
  (getOffset zone host this).1 ≠ NaN
  ∧ numeric_cache (m_cache (getOffset zone host this).2).
Proof.
  intros Hc Hu.
  destruct (fresh_dec host (entry this zone)) as [Hf|Hf].
  - rewrite getOffset_fresh by done. split; [|done]. simpl.
    unfold entry. destruct (m_cache this !! zone) as [o|] eqn:E; simpl.
    + by apply (Hc zone).
    + done.
  - destruct (outcome_cases (refresh host this zone)) as [F|[stdout S]].
    + destruct (getOffset_failed host this zone Hf F) as (e & -> & _). by split.
    + rewrite (getOffset_resolved host this zone stdout Hf S).
      rewrite S in Hu. simpl in Hu. destruct Hu as [?|Hu]; [done|].
      split; [done|]. simpl. intros z o.
      destruct (decide (z = zone)) as [->|Hne].
      * rewrite lookup_insert_eq. by intros [= <-].
      * rewrite lookup_insert_ne by done. apply Hc.
Qed.

Lemma getOffset_keeps_php (host : Host) (this : UFTimezone) (zone : string) :
  m_php (getOffset zone host this).2 = m_php this.
Proof.
  destruct (getOffset_trace host this zone) as [[_ ->]|(_ & Hp & _)]; done.
Qed.

Lemma getOffset_calls_numeric (calls : list (Host * string)) (this : UFTimezone) :
  numeric_cache (m_cache this) ->
  Forall (fun c => usable (execFileAsync c.1 (m_php this) ["-n"; "-r"; php_script c.2]))
    calls ->
  numeric_cache (m_cache (getOffset_calls calls this))
  ∧ m_php (getOffset_calls calls this) = m_php this.
Proof.
  revert this. induction calls as [|[host zone] calls IH]; intros this Hc Hall.
  - done.
  - apply Forall_cons in Hall as [Hu Hall]. cbn [getOffset_calls].
    destruct (getOffset_keeps_numeric host this zone Hc Hu) as [_ Hc'].
    pose proof (getOffset_keeps_php host this zone) as Hp.
    destruct (IH (getOffset zone host this).2 Hc') as [H1 H2].
    + by rewrite Hp.
    + split; [done|]. by rewrite H2.
Qed.

(** X4. [NaN] comes from unusable interpreter output only: on an instance
    that has made any run of lookups in which every interpreter answer
    either failed or had a number on stdout, a lookup with such an answer
    returns a number, and every stored offset is a number. *)
Theorem lookups_stay_numeric (calls : list (Host * string)) (php : string)
    (host : Host) (zone : string) :
  let this := getOffset_calls calls (new_UFTimezone php) in
  Forall (fun c => usable (execFileAsync c.1 php ["-n"; "-r"; php_script c.2])) calls ->
  usable (execFileAsync host php ["-n"; "-r"; php_script zone]) ->
  (getOffset zone host this).1 ≠ NaN
  ∧ numeric_cache (m_cache (getOffset zone host this).2).
Proof.
  intros this Hall Hu.
  destruct (getOffset_calls_numeric calls (new_UFTimezone php)) as [Hc Hp].
  - intros z o. simpl. by rewrite lookup_empty.
  - exact Hall.
  - apply getOffset_keeps_numeric; [exact Hc|].
    unfold refresh. subst this. by rewrite Hp.
Qed.

(** A lookup that fails, one that is answered, and a third one. *)
Lemma lookups_stay_numeric_witness :
  (getOffset "Europe/Paris" (host_answering 5000 "7200")
     (getOffset_calls
        [(host_rejecting 1000, "Europe/Paris"); (host_answering 2000 "3600", "UTC")]
        (new_UFTimezone "php"))).1 ≠ NaN.
Proof.
  apply (lookups_stay_numeric
           [(host_rejecting 1000, "Europe/Paris"); (host_answering 2000 "3600", "UTC")]
           "php" (host_answering 5000 "7200") "Europe/Paris").
  - apply Forall_cons. split; [exact I|].
    apply Forall_cons. split; [|by apply Forall_nil].
    right. vm_compute. intros H. discriminate H.
  - right. vm_compute. intros H. discriminate H.
Defined.

(** The test of the bounds of a table value. *)
Lemma summer_values_checked :
  forallb (fun kv : string * Z =>
             (-39600 <=? kv.2) && (kv.2 <=? 50400) && (kv.2 mod 900 =? 0))
    (map_to_list s_summerTimezones) = true.
Proof. vm_compute. reflexivity. Qed.

(** X5. Whenever the refresh is attempted and fails, the value that
    [getOffset] returns is a whole number of quarter hours between -11
    hours and +14 hours (in seconds): the summer table holds no other
    value, and a zone that is not in it gives 0. *)
Theorem getOffset_failure_in_range (host : Host) (this : UFTimezone) (zone : string) :
  ¬ fresh host (entry this zone) ->
  failed (refresh host this zone) ->
  ∃ v, (getOffset zone host this).1 = Num v
       ∧ -39600 ≤ v ≤ 50400 ∧ v mod 900 = 0.
Proof.
  intros Hf F. destruct (getOffset_failed host this zone Hf F) as (e & -> & _).
  exists (summer_or_0 zone). split; [reflexivity|]. unfold summer_or_0.
  destruct (s_summerTimezones !! zone) as [v|] eqn:E; cbn [default from_option id].
  - pose proof summer_values_checked as H. rewrite forallb_forall in H.
    specialize (H (zone, v)). cbn [snd] in H.
    assert ((zone, v) ∈ map_to_list s_summerTimezones) as Hin.
    { apply elem_of_map_to_list. exact E. }
    apply list_elem_of_In in Hin. specialize (H Hin).
    apply andb_prop in H as [H H3]. apply andb_prop in H as [H1 H2].
    apply Z.leb_le in H1, H2. apply Z.eqb_eq in H3. clear E Hin. lia.
  - clear E. split; [lia|reflexivity].
Qed.

(** No interpreter, and a zone with three quarters of an hour in its offset. *)
Lemma getOffset_failure_in_range_witness :
  ∃ v, (getOffset "Pacific/Chatham" (host_rejecting 1000) (new_UFTimezone "php")).1
       = Num v
       ∧ -39600 ≤ v ≤ 50400 ∧ v mod 900 = 0.
Proof.
  apply (getOffset_failure_in_range (host_rejecting 1000) (new_UFTimezone "php")
           "Pacific/Chatham").
  - unfold fresh. vm_compute. intros H. discriminate H.
  - exact I.
Defined.

(** ** Further properties of the zone tests and the dates *)

Lemma prefix_append (sub s : string) :
  String.prefix sub s = true ↔ ∃ post, s = sub +:+ post.
Proof.
  revert s. induction sub as [|a sub IH]; intros s.
  - split; [intros _; by exists s|]. intros _. by destruct s.
  - destruct s as [|b s]; cbn [String.prefix].
    + split; [done|]. intros [post H]. discriminate H.
    + destruct (ascii_dec a b) as [->|Hne].
      * rewrite IH. split; intros [post H]; exists post.
        -- cbn [String.append]. by rewrite H.
        -- cbn [String.append] in H. by injection H.
      * split; [done|]. intros [post H]. cbn [String.append] in H.
        injection H as H1 H2. by destruct Hne.
Qed.

Lemma contains_cons (c : ascii) (s sub : string) :
  String.prefix sub (String c s) = false ->
  contains (String c s) sub ↔ contains s sub.
Proof.
  intros Hp. split; intros (pre & post & H).
  - destruct pre as [|c' pre].
    + assert (String.prefix sub (String c s) = true) as Ht
        by (apply prefix_append; by exists post).
      congruence.
    + cbn [String.append] in H. injection H as _ H. by exists pre, post.
  - exists (String c pre), post. cbn [String.append]. by rewrite H.
Qed.

(** The search answers an index from [i] on when [sub] occurs, and [-1]
    when it does not. *)
Lemma indexOf_from_contains (sub s : string) :
  ∀ i, 0 ≤ i ->
  (contains s sub ∧ i ≤ indexOf_from i s sub)
  ∨ (¬ contains s sub ∧ indexOf_from i s sub = -1).
Proof.
  induction s as [|c s IH]; intros i Hi; cbn [indexOf_from].
  - destruct (String.prefix sub EmptyString) eqn:Hp.
    + left. split; [|lia]. apply prefix_append in Hp as [post H].
      by exists EmptyString, post.
    + right. split; [|done]. intros (pre & post & H).
      destruct pre; [|discriminate H].
      assert (String.prefix sub EmptyString = true) as Ht
        by (apply prefix_append; by exists post).
      congruence.
  - destruct (String.prefix sub (String c s)) eqn:Hp.
    + left. split; [|lia]. apply prefix_append in Hp as [post H].
      exists EmptyString, post. by rewrite H.
    + destruct (IH (i + 1)) as [[Hc Hle]|[Hc He]]; [lia| |].
      * left. split; [by apply contains_cons|lia].
      * right. split; [|done]. intros H. by apply contains_cons in H.
Qed.

Lemma indexOf_negative (s sub : string) :
  (indexOf s sub <? 0) = true ↔ ¬ contains s sub.
Proof.
  unfold indexOf.
  destruct (indexOf_from_contains sub s 0) as [[Hc Hle]|[Hc He]]; [lia| |].
  - split; [intros H; apply Z.ltb_lt in H; lia|done].
  - rewrite He. split; [done|reflexivity].
Qed.

(** X6. [is24] answers false exactly for the zone names in which
    "America" or "London" occurs, at any place and in this spelling. *)
Theorem is24_false_iff (zone : string) :
  is24 zone = false ↔ contains zone "America" ∨ contains zone "London".
Proof.
  unfold is24.
  pose proof (indexOf_negative zone "America") as HA.
  pose proof (indexOf_negative zone "London") as HL.
  destruct (indexOf zone "America" <? 0), (indexOf zone "London" <? 0);
    cbn [andb]; split; try done.
  - intros [H|H]; [by apply HA in H|by apply HL in H].
  - intros _. right. destruct (indexOf_from_contains "London" zone 0)
      as [[Hc _]|[Hc _]]; [lia|done|]. by apply HL in Hc.
  - intros _. left. destruct (indexOf_from_contains "America" zone 0)
      as [[Hc _]|[Hc _]]; [lia|done|]. by apply HA in Hc.
  - intros _. left. destruct (indexOf_from_contains "America" zone 0)
      as [[Hc _]|[Hc _]]; [lia|done|]. by apply HA in Hc.
Qed.

Lemma getUtcFromLocalDate_eq (host : Host) (this : UFTimezone) (d : Date)
    (zone : string) :
  getUtcFromLocalDate d zone host this =
  (new_Date (sub (getTime d) (mul (Num 1000) (getOffset zone host this).1)),
   (getOffset zone host this).2).
Proof.
  unfold getUtcFromLocalDate, mbind, M_bind; simpl.
  by destruct (getOffset zone host this).
Qed.

(** X7. A server date converted to the local time of a zone and from
    there to UTC, with the same offset of the zone in both calls, is the
    server date shifted by the server's own timezone offset: the zone has
    dropped out. Both dates have to be within the range of a date. *)
Theorem local_to_utc_drops_zone (host1 host2 : Host) (this : UFTimezone)
    (zone : string) (t k : Z) :
  let d := {| getTime := Num t |} in
  let local := getLocalFromServerDate d zone host1 this in
  let utc := getUtcFromLocalDate local.1 zone host2 local.2 in
  (getOffset zone host1 this).1 = Num k ->
  (getOffset zone host2 local.2).1 = Num k ->
  Z.abs (t + 60000 * getTimezoneOffset host1 t + 1000 * k) ≤ 8640000000000000 ->
  Z.abs (t + 60000 * getTimezoneOffset host1 t) ≤ 8640000000000000 ->
  utc.1 = {| getTime := Num (t + 60000 * getTimezoneOffset host1 t) |}.
Proof.
  intros d local utc Hk1 Hk2 Hl Hu. subst utc.
  rewrite getUtcFromLocalDate_eq. cbn [fst]. rewrite Hk2.
  subst local. rewrite getLocalFromServerDate_eq. cbn [fst snd]. rewrite Hk1.
  unfold d, on_time_value, new_Date. cbn [getTime mul add].
  rewrite TimeClip_in_range by exact Hl. cbn [sub]. f_equal.
  replace (t + 60000 * getTimezoneOffset host1 t + 1000 * k - 1000 * k)
    with (t + 60000 * getTimezoneOffset host1 t) by lia.
  by apply TimeClip_in_range.
Qed.

(** On Amsterdam winter time, midnight UTC is 23:00 on the server's clock
    read as UTC, whatever Tokyo's offset is. *)
Lemma local_to_utc_drops_zone_witness :
  (getUtcFromLocalDate
     (getLocalFromServerDate {| getTime := Num 1616803200000 |} "Asia/Tokyo"
        (host_Amsterdam 1000) (new_UFTimezone "php")).1
     "Asia/Tokyo" (host_Amsterdam 2000)
     (getLocalFromServerDate {| getTime := Num 1616803200000 |} "Asia/Tokyo"
        (host_Amsterdam 1000) (new_UFTimezone "php")).2).1
  = {| getTime := Num (1616803200000
                       + 60000 * getTimezoneOffset (host_Amsterdam 1000) 1616803200000) |}.
Proof.
  apply (local_to_utc_drops_zone (host_Amsterdam 1000) (host_Amsterdam 2000)
           (new_UFTimezone "php") "Asia/Tokyo" 1616803200000 32400).
  - vm_compute. reflexivity.
  - vm_compute. reflexivity.
  - vm_compute. intros H. discriminate H.
  - vm_compute. intros H. discriminate H.
Defined.

(** X8. The local date that [getLocalFromServerDate] returns is an
    invalid date exactly when the server date is invalid, or the offset
    that [getOffset] returned is [NaN], or the shifted time value lies
    beyond 8.64e15 ms on either side. *)
Theorem getLocalFromServerDate_invalid_iff (host : Host) (this : UFTimezone)
    (d : Date) (zone : string) :
  getTime (getLocalFromServerDate d zone host this).1 = NaN
  ↔ getTime d = NaN
    ∨ (getOffset zone host this).1 = NaN
    ∨ ∃ t k, getTime d = Num t ∧ (getOffset zone host this).1 = Num k
             ∧ 8640000000000000
               < Z.abs (t + 60000 * getTimezoneOffset host t + 1000 * k).
Proof.
  rewrite getLocalFromServerDate_eq. cbn [fst]. unfold on_time_value, new_Date.
  cbn [getTime]. destruct (getTime d) as [t|]; cbn [mul add].
  - destruct ((getOffset zone host this).1) as [k|]; cbn [mul add TimeClip].
    + destruct (Z.ltb_spec 8640000000000000
                  (Z.abs (t + 60000 * getTimezoneOffset host t + 1000 * k)))
        as [Hlt|Hge].
      * split; [|done]. intros _. right. right. by exists t, k.
      * split; [done|]. intros [H|[H|(t' & k' & [= <-] & [= <-] & H)]];
          [done|done|lia].
    + split; [|done]. intros _. right. by left.
  - split; [|done]. intros _. by left.
Qed.

(** X9. For a zone with [is24 zone = true] and a valid local date, the
    text is the hour from 0 to 23 as [getHours] gives it, without a
    leading zero, a colon and the minute in two digits, a colon and the
    second in two digits when seconds are asked for, and no suffix. *)
Theorem getLocalTime_24_hour (host : Host) (this : UFTimezone) (d : Date)
    (zone : string) (anIncludeSeconds : bool) (tv : Z) :
  let local := getLocalFromServerDate d zone host this in
  let h := (LocalTime host tv / 3600000) mod 24 in
  let m := (LocalTime host tv / 60000) mod 60 in
  let s := (LocalTime host tv / 1000) mod 60 in
  is24 zone = true ->
  getTime local.1 = Num tv ->
  (getLocalTime d zone anIncludeSeconds host this).1
  = toString (Num h) +:+ ":" +:+ two_digits m
    +:+ (if anIncludeSeconds then ":" +:+ two_digits s else EmptyString)
  ∧ 0 ≤ h < 24
  ∧ (getLocalTime d zone anIncludeSeconds host this).2 = local.2.
Proof.
  intros local h m s H24 Htv.
  assert (0 ≤ h < 24) as Hh by (apply Z.mod_pos_bound; lia).
  assert (0 ≤ m < 60) as Hm by (apply Z.mod_pos_bound; lia).
  assert (0 ≤ s < 60) as Hs by (apply Z.mod_pos_bound; lia).
  subst local. unfold getLocalTime, mbind, M_bind.
  destruct (getLocalFromServerDate d zone host this) as [localDate this'].
  cbn [fst snd] in Htv |- *.
  unfold getHours, getMinutes, getSeconds, ask, on_time_value.
  rewrite Htv, H24. fold h m s. cbn [fst snd mret M_ret].
  rewrite !twoDigits_two_digits by lia.
  split; [|by split].
  unfold two_digits. by destruct anIncludeSeconds.
Qed.

(** Five past nine in the morning in Paris, with and without seconds. *)
Lemma getLocalTime_24_hour_witness :
  (getLocalTime {| getTime := Num 25507000 |} "Europe/Paris" true
     (host_rejecting 1000) (new_UFTimezone "php")).1 = "9:05:07"
  ∧ (getLocalTime {| getTime := Num 25507000 |} "Europe/Paris" false
       (host_rejecting 1000) (new_UFTimezone "php")).1 = "9:05".
Proof.
  split.
  - apply (getLocalTime_24_hour (host_rejecting 1000) (new_UFTimezone "php")
             {| getTime := Num 25507000 |} "Europe/Paris" true 32707000);
      vm_compute; reflexivity.
  - apply (getLocalTime_24_hour (host_rejecting 1000) (new_UFTimezone "php")
             {| getTime := Num 25507000 |} "Europe/Paris" false 32707000);
      vm_compute; reflexivity.
Defined.

(** X12. A date in the local time of a zone converted to server time and
    back, with the same offset of the zone in both calls, is the original
    date, provided the server date is a valid date and the server's own
    timezone offset read at the server date is the one read at the local
    date. *)
Theorem local_server_local_roundtrip (host1 host2 : Host) (this : UFTimezone)
    (zone : string) (t k st : Z) :
  let d := {| getTime := Num t |} in
  let server := getServerFromLocalDate d zone host1 this in
  let back := getLocalFromServerDate server.1 zone host2 server.2 in
  Z.abs t ≤ 8640000000000000 ->
  (getOffset zone host1 this).1 = Num k ->
  (getOffset zone host2 server.2).1 = Num k ->
  getTime server.1 = Num st ->
  getTimezoneOffset host2 st = getTimezoneOffset host1 t ->
  back.1 = d.
Proof.
  intros d server back Ht Hk1 Hk2 Hst Htz. subst back.
  rewrite getLocalFromServerDate_eq. cbn [fst]. rewrite Hk2.
  unfold on_time_value. rewrite Hst.
  subst server. rewrite getServerFromLocalDate_eq in Hst. cbn [fst] in Hst.
  rewrite Hk1 in Hst. apply TimeClip_Num in Hst.
  unfold d, on_time_value in Hst. cbn [getTime mul sub] in Hst.
  injection Hst as Hst. unfold new_Date, d. f_equal. cbn [mul add].
  rewrite Htz.
  replace (st + 60000 * getTimezoneOffset host1 t + 1000 * k) with t by lia.
  by apply TimeClip_in_range.
Qed.

(** On Amsterdam winter time: 09:00 in Tokyo to server time and back. *)
Lemma local_server_local_roundtrip_witness :
  (getLocalFromServerDate
     (getServerFromLocalDate {| getTime := Num 1616835600000 |} "Asia/Tokyo"
        (host_Amsterdam 1000) (new_UFTimezone "php")).1
     "Asia/Tokyo" (host_Amsterdam 2000)
     (getServerFromLocalDate {| getTime := Num 1616835600000 |} "Asia/Tokyo"
        (host_Amsterdam 1000) (new_UFTimezone "php")).2).1
  = {| getTime := Num 1616835600000 |}.
Proof.
  apply (local_server_local_roundtrip (host_Amsterdam 1000) (host_Amsterdam 2000)
           (new_UFTimezone "php") "Asia/Tokyo" 1616835600000 32400 1616806800000).
  - simpl. lia.
  - vm_compute. reflexivity.
  - vm_compute. reflexivity.
  - vm_compute. reflexivity.
  - vm_compute. reflexivity.
Defined.

(** ** Further properties of the configuration reader *)

Section CharacterFree.
Import RegExp.

Variable c : ascii.

Lemma occurs_append (a b : string) :
  occurs c (a +:+ b) = occurs c a || occurs c b.
Proof.
  induction a as [|x a IH]; [done|].
  simpl. rewrite IH. by rewrite orb_assoc.
Qed.

Lemma occurs_tail (a : ascii) (s : string) :
  occurs c (String a s) = false -> occurs c s = false.
Proof. cbn [occurs]. intros H. by apply orb_false_elim in H as [_ H]. Qed.

Lemma step_free (test : ascii -> bool) (s : string) (k : string -> option string)
    (out : string) :
  occurs c s = false ->
  (∀ s' out, occurs c s' = false -> k s' = Some out -> occurs c out = false) ->
  step test s k = Some out -> occurs c out = false.
Proof.
  intros Hs Hk. destruct s as [|a s]; [done|]. cbn [step].
  destruct (test a); [|done]. apply Hk. by apply occurs_tail in Hs.
Qed.

(** What a match leaves over is free of [c] when the input is. *)
Lemma run_free (ignoreCase : bool) (r : regex) :
  ∀ s k out,
  occurs c s = false ->
  (∀ s' out, occurs c s' = false -> k s' = Some out -> occurs c out = false) ->
  run ignoreCase r s k = Some out -> occurs c out = false.
Proof.
  induction r as [a| | |negated items|r1 IH1 r2 IH2|r1 IH1 r2 IH2
                  |greedy r IH|greedy r IH|]; intros s k out Hs Hk; cbn [run].
  - by apply step_free.
  - by apply step_free.
  - by apply step_free.
  - by apply step_free.
  - apply IH1; [done|]. intros s' out' Hs'. by apply IH2.
  - destruct (run ignoreCase r1 s k) as [o|] eqn:E.
    + intros [= <-]. by apply (IH1 s k).
    + by apply IH2.
  - generalize (String.length s) as n. intros n. revert s out Hs.
    induction n as [|n IHn]; intros s out Hs; [by apply Hk|].
    match goal with
    | |- context [run ignoreCase r s ?again] =>
        assert (∀ o, run ignoreCase r s again = Some o -> occurs c o = false)
          as Hagain
    end.
    { intros o. apply IH; [done|]. intros s' o' Hs'.
      destruct (String.length s' <? String.length s)%nat; [|done]. by apply IHn. }
    destruct greedy.
    + destruct (run ignoreCase r s _) as [o|] eqn:E.
      * intros [= <-]. by apply Hagain.
      * by apply Hk.
    + destruct (k s) as [o|] eqn:E.
      * intros [= <-]. by apply (Hk s).
      * apply Hagain.
  - apply IH; [done|]. intros s1 out1 Hs1.
    generalize (String.length s1) as n. intros n. revert s1 out1 Hs1.
    induction n as [|n IHn]; intros s1 out1 Hs1; [by apply Hk|].
    match goal with
    | |- context [run ignoreCase r s1 ?again] =>
        assert (∀ o, run ignoreCase r s1 again = Some o -> occurs c o = false)
          as Hagain
    end.
    { intros o. apply IH; [done|]. intros s' o' Hs'.
      destruct (String.length s' <? String.length s1)%nat; [|done]. by apply IHn. }
    destruct greedy.
    + destruct (run ignoreCase r s1 _) as [o|] eqn:E.
      * intros [= <-]. by apply Hagain.
      * by apply Hk.
    + destruct (k s1) as [o|] eqn:E.
      * intros [= <-]. by apply (Hk s1).
      * apply Hagain.
  - destruct s; [by apply Hk|done].
Qed.

Lemma match_here_free (ignoreCase : bool) (r : regex) (s matched rest : string) :
  occurs c s = false ->
  match_here ignoreCase r s = Some (matched, rest) ->
  occurs c rest = false.
Proof.
  intros Hs. unfold match_here.
  destruct (run ignoreCase r s Some) as [o|] eqn:E; [|done].
  intros [= _ <-]. apply (run_free ignoreCase r s Some); [done| |done].
  by intros s' out' Hs' [= <-].
Qed.

(** Replacing matches by texts free of [c] keeps a text free of [c]. *)
Lemma replace_all_free (ignoreCase : bool) (r : regex) (f : string -> string)
    (s : string) :
  (∀ m, occurs c (f m) = false) ->
  occurs c s = false ->
  occurs c (replace_all ignoreCase r f s) = false.
Proof.
  intros Hf. unfold replace_all. generalize (S (String.length s)) as fuel.
  intros fuel. revert s. induction fuel as [|fuel IH]; intros s Hs; [done|].
  cbn [replace_all_from].
  assert (occurs c match s with
                   | EmptyString => EmptyString
                   | String a s' => String a (replace_all_from fuel ignoreCase r f s')
                   end = false) as Hskip.
  { destruct s as [|a s']; [done|]. cbn [occurs] in Hs |- *.
    apply orb_false_elim in Hs as [-> Hs]. by apply IH. }
  destruct (match_here ignoreCase r s) as [[matched rest]|] eqn:E; [|done].
  destruct matched as [|a matched].
  - rewrite occurs_append, Hf. exact Hskip.
  - rewrite occurs_append, Hf. apply IH. by apply (match_here_free _ _ _ _ _ Hs E).
Qed.

End CharacterFree.

Section NoArrays.
Import RegExp JSON UFPhp.

Lemma substring_0_0 (s : string) : substring 0 0 s = EmptyString.
Proof. by destruct s. Qed.

(** Replacing every [c] by a text free of [c] gives a text free of [c]. *)
Lemma replace_all_char_free (c : ascii) (ignoreCase : bool) (f : string -> string)
    (s : string) :
  (∀ m, occurs c (f m) = false) ->
  occurs c (replace_all ignoreCase (Chr c) f s) = false.
Proof.
  intros Hf. unfold replace_all.
  assert (∀ fuel s, (String.length s < fuel)%nat ->
          occurs c (replace_all_from fuel ignoreCase (Chr c) f s) = false) as H;
    [|apply H; lia].
  clear s. induction fuel as [|fuel IH]; intros s Hlen; [lia|].
  cbn [replace_all_from]. destruct s as [|a s]; [done|].
  cbn [String.length] in Hlen.
  unfold match_here. cbn [run step].
  destruct (same_char ignoreCase c a) eqn:E.
  - replace (String.length (String a s) - String.length s)%nat with 1%nat
      by (cbn [String.length]; lia).
    cbn [substring]. rewrite substring_0_0.
    rewrite occurs_append, Hf. apply IH. lia.
  - cbn [occurs]. rewrite IH, orb_false_r by lia.
    destruct (Ascii.eqb_spec c a) as [->|]; [|done].
    unfold same_char in E. by rewrite Ascii.eqb_refl in E.
Qed.

Lemma skip_ws_free (c : ascii) (s : string) :
  occurs c s = false -> occurs c (skip_ws s) = false.
Proof.
  induction s as [|a s IH]; [done|]. intros H. cbn [skip_ws].
  destruct (isJsonSpace a); [|done]. apply IH. by apply occurs_tail in H.
Qed.

Lemma strip_prefix_free (c : ascii) (p s r : string) :
  occurs c s = false -> strip_prefix p s = Some r -> occurs c r = false.
Proof.
  revert s. induction p as [|a p IH]; intros s Hs; cbn [strip_prefix].
  - by intros [= <-].
  - destruct s as [|b s]; [done|]. destruct (Ascii.eqb a b); [|done].
    apply IH. by apply occurs_tail in Hs.
Qed.

Lemma take_digits_free (c : ascii) (s ds r : string) :
  occurs c s = false -> take_digits s = (ds, r) -> occurs c r = false.
Proof.
  revert ds. induction s as [|a s IH]; intros ds Hs; cbn [take_digits].
  - by intros [= _ <-].
  - destruct (isDigit a).
    + destruct (take_digits s) as [ds' r'] eqn:E. intros [= _ <-].
      apply (IH ds'); [by apply occurs_tail in Hs|done].
    + by intros [= _ <-].
Qed.

Lemma cons_unit_inv (u : N) (o : option (list N * string)) (us : list N)
    (r : string) :
  match o with
  | Some (us0, rest) => Some (u :: us0, rest)
  | None => None
  end = Some (us, r) ->
  ∃ us0, o = Some (us0, r).
Proof. destruct o as [[us0 rest]|]; [|done]. intros [= _ <-]. by exists us0. Qed.

Lemma parse_string_free (c : ascii) (s : string) :
  ∀ us r, occurs c s = false -> parse_string s = Some (us, r) ->
  occurs c r = false.
Proof.
  assert (∀ n s us r, (String.length s <= n)%nat -> occurs c s = false ->
          parse_string s = Some (us, r) -> occurs c r = false) as H;
    [|intros us r; by apply (H (String.length s))].
  clear s. induction n as [|n IH]; intros s us r Hn Hs.
  - destruct s; [done|]. cbn [String.length] in Hn. lia.
  - destruct s as [|a s]; [done|]. cbn [String.length] in Hn.
    pose proof (occurs_tail c a s Hs) as Hs'.
    cbn [parse_string]. destruct (Ascii.eqb a dquote); [by intros [= _ <-]|].
    destruct (Ascii.eqb a "\").
    + destruct s as [|e s]; [done|]. cbn [String.length] in Hn.
      pose proof (occurs_tail c e s Hs') as Hs''.
      assert (∀ u, match parse_string s with
                   | Some (us0, rest) => Some (u :: us0, rest)
                   | None => None
                   end = Some (us, r) -> occurs c r = false) as Hplain.
      { intros u Hu. apply cons_unit_inv in Hu as [us0 Hu].
        apply (IH s us0 r); [lia|done|done]. }
      destruct e as [[] [] [] [] [] [] [] []];
        try (cbn; first [done | apply Hplain]).
      destruct s as [|h1 [|h2 [|h3 [|h4 s]]]];
        try (cbn; first [done | apply Hplain]).
      destruct (hexValue h1), (hexValue h2), (hexValue h3), (hexValue h4);
        try done.
      intros Hu. apply cons_unit_inv in Hu as [us0 Hu].
      apply (IH s us0 r); [cbn [String.length] in Hn; lia| |done].
      by do 4 apply occurs_tail in Hs''.
    + destruct (N_of_ascii a <? 32)%N; [done|].
      intros Hu. apply cons_unit_inv in Hu as [us0 Hu].
      apply (IH s us0 r); [lia|done|done].
Qed.

Lemma take_digits_some_free (c : ascii) (s : string) {A : Type}
    (f : string -> A) (x : A) (r : string) :
  occurs c s = false ->
  (let (ds, r0) := take_digits s in
   match ds with
   | EmptyString => None
   | String _ _ => Some (f ds, r0)
   end) = Some (x, r) ->
  occurs c r = false.
Proof.
  intros Hs. destruct (take_digits s) as [ds r0] eqn:E.
  destruct ds; [done|]. intros [= _ <-]. by apply (take_digits_free c s _ _ Hs E).
Qed.

Lemma parse_number_free (c : ascii) (s : string) (q : Q) (r : string) :
  occurs c s = false -> parse_number s = Some (q, r) -> occurs c r = false.
Proof.
  intros Hs. unfold parse_number.
  lazymatch goal with
  | |- context [match ?e with (negative, s1) => _ end] =>
      destruct e as [negative s1] eqn:E1
  end.
  assert (occurs c s1 = false) as H1.
  { destruct s as [|a s']; [by injection E1 as _ <-|].
    pose proof (occurs_tail c a s' Hs).
    destruct a as [[] [] [] [] [] [] [] []]; by injection E1 as _ <-. }
  lazymatch goal with
  | |- match ?e with Some _ => _ | None => _ end = _ -> _ =>
      destruct e as [[ip s2]|] eqn:E2; [|done]
  end.
  assert (occurs c s2 = false) as H2.
  { destruct s1 as [|a s1'].
    - by apply (take_digits_some_free c EmptyString id) in E2.
    - pose proof (occurs_tail c a s1' H1).
      destruct a as [[] [] [] [] [] [] [] []]; cbv iota beta in E2;
        first [ by injection E2 as _ <-
              | by apply (take_digits_some_free c _ id) in E2 ]. }
  lazymatch goal with
  | |- match ?e with Some _ => _ | None => _ end = _ -> _ =>
      destruct e as [[fp s3]|] eqn:E3; [|done]
  end.
  assert (occurs c s3 = false) as H3.
  { destruct s2 as [|a s2']; [by injection E3 as _ <-|].
    pose proof (occurs_tail c a s2' H2).
    destruct a as [[] [] [] [] [] [] [] []]; cbv iota beta in E3;
      first [ by injection E3 as _ <-
            | by apply (take_digits_some_free c _ id) in E3 ]. }
  lazymatch goal with
  | |- match ?e with Some _ => _ | None => _ end = _ -> _ =>
      destruct e as [[e4 s4]|] eqn:E4; [|done]
  end.
  intros [= _ <-].
  destruct s3 as [|a s3']; [by injection E4 as _ <-|].
  destruct (Ascii.eqb a "e" || Ascii.eqb a "E"); [|by injection E4 as _ <-].
  pose proof (occurs_tail c a s3' H3) as H3'.
  lazymatch type of E4 with
  | context [match ?e with (sign, r1) => _ end] =>
      destruct e as [sign r1] eqn:E5
  end.
  assert (occurs c r1 = false) as H5.
  { destruct s3' as [|b s3'']; [by injection E5 as _ <-|].
    pose proof (occurs_tail c b s3'' H3').
    destruct b as [[] [] [] [] [] [] [] []]; by injection E5 as _ <-. }
  by apply (take_digits_some_free c r1 (fun ds => sign * digits_value 0 ds)) in E4.
Qed.

Lemma set_property_no_array (key : list N) (v : json)
    (props : list (list N * json)) :
  has_array v = false ->
  existsb (fun kv => has_array kv.2) props = false ->
  existsb (fun kv => has_array kv.2) (set_property key v props) = false.
Proof.
  intros Hv. induction props as [|[k w] props IH]; cbn [set_property existsb snd].
  - intros _. by rewrite Hv.
  - intros H. apply orb_false_elim in H as [Hw Hp].
    destruct (decide (k = key)); cbn [existsb snd].
    + by rewrite Hv, Hp.
    + by rewrite Hw, IH.
Qed.

(** A text without an opening bracket parses to a value without arrays. *)
Lemma parse_value_no_array (fuel : nat) :
  (∀ s v r, occurs "[" s = false -> parse_value fuel s = Some (v, r) ->
            has_array v = false ∧ occurs "[" r = false)
  ∧ (∀ acc s v r, occurs "[" s = false ->
                  existsb (fun kv => has_array kv.2) acc = false ->
                  parse_members fuel acc s = Some (v, r) ->
                  has_array v = false ∧ occurs "[" r = false).
Proof.
  induction fuel as [|fuel [IHv IHm]]; [by split|]. split.
  - intros s v r Hs. cbn [parse_value].
    apply (skip_ws_free "[") in Hs.
    destruct (skip_ws s) as [|a r0]; [done|].
    pose proof (occurs_tail _ _ _ Hs) as Hr0.
    destruct (Ascii.eqb a "{").
    { pose proof (skip_ws_free "[" r0 Hr0) as Hw.
      destruct (skip_ws r0) as [|b r1]; [by apply IHm|].
      pose proof (occurs_tail _ _ _ Hw).
      destruct b as [[] [] [] [] [] [] [] []]; cbv iota beta;
        first [ by apply IHm | by intros [= <- <-] ]. }
    destruct (Ascii.eqb_spec a "[") as [->|_]; [done|].
    destruct (Ascii.eqb a dquote).
    { destruct (parse_string r0) as [[us r']|] eqn:E; [|done].
      intros [= <- <-]. split; [done|]. by apply (parse_string_free _ _ _ _ Hr0 E). }
    destruct (strip_prefix "true" (String a r0)) as [r'|] eqn:E1.
    { intros [= <- <-]. split; [done|]. by apply (strip_prefix_free _ _ _ _ Hs E1). }
    destruct (strip_prefix "false" (String a r0)) as [r'|] eqn:E2.
    { intros [= <- <-]. split; [done|]. by apply (strip_prefix_free _ _ _ _ Hs E2). }
    destruct (strip_prefix "null" (String a r0)) as [r'|] eqn:E3.
    { intros [= <- <-]. split; [done|]. by apply (strip_prefix_free _ _ _ _ Hs E3). }
    destruct (parse_number (String a r0)) as [[q r']|] eqn:E4; [|done].
    intros [= <- <-]. split; [done|]. by apply (parse_number_free _ _ _ _ Hs E4).
  - intros acc s v r Hs Hacc. cbn [parse_members].
    apply (skip_ws_free "[") in Hs.
    destruct (skip_ws s) as [|a r0]; [done|].
    pose proof (occurs_tail _ _ _ Hs) as Hr0.
    destruct (Ascii.eqb a dquote); [|done].
    destruct (parse_string r0) as [[key r1]|] eqn:E; [|done].
    pose proof (parse_string_free _ _ _ _ Hr0 E) as Hr1.
    apply (skip_ws_free "[") in Hr1.
    destruct (skip_ws r1) as [|b r2]; [done|].
    pose proof (occurs_tail _ _ _ Hr1) as Hr2.
    destruct b as [[] [] [] [] [] [] [] []]; cbv iota beta; try done.
    destruct (parse_value fuel r2) as [[w r3]|] eqn:Ev; [|done].
    destruct (IHv r2 w r3 Hr2 Ev) as [Hw Hr3].
    apply (skip_ws_free "[") in Hr3.
    pose proof (set_property_no_array key w acc Hw Hacc) as Hset.
    destruct (skip_ws r3) as [|d r4]; [done|].
    pose proof (occurs_tail _ _ _ Hr3) as Hr4.
    destruct d as [[] [] [] [] [] [] [] []]; cbv iota beta; try done;
      first [ by apply IHm | by intros [= <- <-] ].
Qed.

Lemma parse_no_array (text : string) (v : json) :
  occurs "[" text = false -> JSON.parse text = Some v -> has_array v = false.
Proof.
  intros Ht. unfold JSON.parse.
  destruct (parse_value _ text) as [[w rest]|] eqn:E; [|done].
  destruct (skip_ws rest); [|done]. intros [= <-].
  by apply (proj1 (parse_value_no_array _) text w rest Ht E).
Qed.

(** X10. [parsePhpConfig] never returns an array, at no depth of the
    value: every opening bracket of the file has become a brace before
    [JSON.parse] sees the text, so a PHP list comes back as [false] or
    inside a string, never as an array. *)
Theorem parsePhpConfig_returns_no_array (fs : FileSystem) (path : string)
    (console : list Error) :
  ∃ v console',
    parsePhpConfig path fs console = (Normal v, console')
    ∧ has_array v = false.
Proof.
  destruct (parsePhpConfig_try path fs console) as [[v|e] console'] eqn:E.
  - exists v, console'. split; [by apply parsePhpConfig_normal|].
    revert E. unfold parsePhpConfig_try, mbind, X_bind, await.
    destruct (access fs path); [|done].
    destruct (readFile fs path) as [text|]; [|done].
    cbv beta iota zeta. unfold JSON_parse.
    lazymatch goal with
    | |- context [JSON.parse ?t] =>
        assert (occurs "[" t = false) as Ht;
        [|destruct (JSON.parse t) as [w|] eqn:Ep; [|done]]
    end.
    + apply replace_all_free; [done|].
      apply replace_all_free; [done|].
      apply replace_all_free; [done|].
      apply replace_all_free; [done|].
      by apply replace_all_char_free.
    + intros [= <- _]. by apply (parse_no_array _ _ Ht Ep).
  - exists (JBool false), (console' ++ [e])%list.
    split; [by apply parsePhpConfig_caught|done].
Qed.

End NoArrays.

Section QuoteValue.
Import RegExp UFPhp.

Lemma length_append_le (a b : string) :
  (String.length a <= String.length (a +:+ b))%nat.
Proof.
  induction a as [|x a IH]; [cbn [String.length]; lia|].
  change (String x a +:+ b) with (String x (a +:+ b)). cbn [String.length]. lia.
Qed.

(** [\s+] at the start of white space takes all of it. *)
Lemma run_spaces (ws rest : string) (a : ascii) :
  isSpace a = true -> all_space ws = true -> starts_without_space rest = true ->
  run false (Plus true Space) (String a (ws +:+ rest)) Some = Some rest.
Proof.
  intros Ha Hws Hrest. cbn [run step]. rewrite Ha.
  lazymatch goal with
  | |- ?loop (String.length ?s0) ?s0 = _ =>
      assert (∀ n ws', (String.length ws' <= n)%nat -> all_space ws' = true ->
              loop n (ws' +:+ rest) = Some rest) as H
  end.
  { induction n as [|n IH]; intros ws' Hn Hws'.
    - destruct ws'; [done|]. cbn [String.length] in Hn. lia.
    - destruct ws' as [|b ws'].
      + change (EmptyString +:+ rest) with rest.
        destruct rest as [|b rest]; [done|].
        cbn [starts_without_space] in Hrest. cbn [step].
        by destruct (isSpace b).
      + cbn [all_space] in Hws'. apply andb_prop in Hws' as [Hb Hws'].
        cbn [String.length] in Hn.
        change (String b ws' +:+ rest) with (String b (ws' +:+ rest)).
        cbn [step]. rewrite Hb. cbn [String.length].
        destruct (Nat.ltb_spec (String.length (ws' +:+ rest))
                    (S (String.length (ws' +:+ rest)))) as [_|?]; [|lia].
        rewrite IH by (done || lia). done. }
  apply H; [apply length_append_le|done].
Qed.

Lemma strip_arrow (ws v : string) :
  ws ≠ EmptyString -> all_space ws = true -> starts_without_space v = true ->
  replace_first false (Seq (lit "=" ">") (Plus true Space)) (fun _ => EmptyString)
    ("=>" +:+ ws +:+ v)
  = v.
Proof.
  intros Hne Hws Hv. destruct ws as [|a ws]; [done|].
  cbn [all_space] in Hws. apply andb_prop in Hws as [Ha Hws].
  change ("=>" +:+ String a ws +:+ v) with (String "=" (String ">" (String a (ws +:+ v)))).
  cbn [replace_first]. unfold match_here.
  assert (run false (Seq (lit "=" ">") (Plus true Space))
            (String "=" (String ">" (String a (ws +:+ v)))) Some = Some v) as ->.
  { change (run false (Plus true Space) (String a (ws +:+ v)) Some = Some v).
    by apply run_spaces. }
  done.
Qed.

Lemma strip_comma (v : string) :
  replace_first false (Seq (Chr ",") Eol) (fun _ => EmptyString) (v +:+ ",") = v.
Proof.
  induction v as [|a v IH]; [done|].
  change (String a v +:+ ",") with (String a (v +:+ ",")).
  cbn [replace_first]. unfold match_here. cbn [run step].
  assert (match (if same_char false "," a
                 then match v +:+ "," with
                      | EmptyString => Some (v +:+ ",")
                      | String _ _ => None
                      end
                 else None) with
          | Some rest =>
              Some (substring 0 (String.length (String a (v +:+ ","))
                                 - String.length rest) (String a (v +:+ ",")), rest)
          | None => None
          end = None) as ->.
  { destruct (same_char false "," a); [|done]. by destruct v. }
  by rewrite IH.
Qed.

Lemma escape_all_quotes (v : string) :
  replace_all false (Chr "'") (fun _ => "\'") v = escape_quotes v.
Proof.
  unfold replace_all.
  assert (∀ fuel s, (String.length s < fuel)%nat ->
          replace_all_from fuel false (Chr "'") (fun _ => "\'") s
          = escape_quotes s) as H; [|apply H; lia].
  induction fuel as [|fuel IH]; intros s Hlen; [lia|].
  cbn [replace_all_from]. destruct s as [|a s]; [done|].
  cbn [String.length] in Hlen. unfold match_here. cbn [run step escape_quotes].
  unfold same_char, canonicalize. cbn [andb]. rewrite (Ascii.eqb_sym "'" a).
  destruct (Ascii.eqb a "'").
  - replace (String.length (String a s) - String.length s)%nat with 1%nat
      by (cbn [String.length]; lia).
    cbn [substring]. rewrite ?substring_0_0. cbn [String.append].
    by rewrite IH by lia.
  - by rewrite IH by lia.
Qed.

(** X11. The function that quotes a value: given [=>], white space, a text
    [v] and a comma, it returns [=> ], the value and a comma, where the
    value is [v] itself when [v] is [true], [false] or [null], and
    otherwise [v] between single quotes with a backslash before every
    single quote in it. *)
Theorem quote_value_wraps (ws v : string) :
  ws ≠ EmptyString ->
  all_space ws = true ->
  starts_without_space v = true ->
  quote_value ("=>" +:+ ws +:+ v +:+ ",")
  = "=> " +:+ (if is_literal v then v else "'" +:+ escape_quotes v +:+ "'") +:+ ",".
Proof.
  intros Hne Hws Hv. unfold quote_value.
  rewrite (strip_arrow ws (v +:+ ",")); [|done|done|by destruct v].
  rewrite strip_comma, escape_all_quotes. unfold is_literal.
  destruct (String.eqb v "true"), (String.eqb v "false"), (String.eqb v "null");
    reflexivity.
Qed.

(** Two spaces and a bare word with a quote in it; and the literal [null]. *)
Lemma quote_value_wraps_witness :
  quote_value "=>  it's," = "=> 'it\'s',"
  ∧ quote_value "=> null," = "=> null,".
Proof.
  split.
  - apply (quote_value_wraps "  " "it's"); [done|reflexivity|reflexivity].
  - apply (quote_value_wraps " " "null"); [done|reflexivity|reflexivity].
Defined.

End QuoteValue.
